(** * fastzip: a shallow embedding of the archiver, the extractor, the
    file pool and the counting writer, with the properties of its spec. *)

From Stdlib Require Import ZArith Lia Ascii String Init.Byte.
From stdpp Require Import base gmap strings list sorting.

Open Scope Z_scope.

(** ** Byte strings and paths ([path/filepath], unix flavour) *)
Module Paths.
Local Open Scope string_scope.

Definition sep : ascii := "/"%char.

(** Splitting a string at every separator:
    [split_path "/a/b" = [""; "a"; "b"]]. *)
Fixpoint split_go (cur : string) (s : string) : list string :=
  match s with
  | EmptyString => [String.rev cur]
  | String c s' =>
      if Ascii.eqb c sep then String.rev cur :: split_go "" s'
      else split_go (String c cur) s'
  end.
Definition split_path (s : string) : list string := split_go "" s.

Definition join_slash (cs : list string) : string := String.concat "/" cs.

Definition is_abs (s : string) : bool := String.prefix "/" s.

(** The lexical rules of [filepath.Clean]: drop empty and "." elements,
    let ".." eat the previous element (or vanish at the root). The stack
    holds the kept elements in reverse. *)
Definition clean_step (rooted : bool) (st : list string) (c : string)
  : list string :=
  if String.eqb c "" || String.eqb c "." then st
  else if String.eqb c ".." then
    match st with
    | d :: st' => if String.eqb d ".." then c :: st else st'
    | [] => if rooted then [] else [c]
    end
  else c :: st.

Definition clean_comps (rooted : bool) (cs : list string) : list string :=
  rev (fold_left (clean_step rooted) cs []).

Definition clean (s : string) : string :=
  if String.eqb s "" then "." else
  let rooted := is_abs s in
  let cs := clean_comps rooted (split_path s) in
  if rooted then "/" ++ join_slash cs
  else match cs with [] => "." | _ => join_slash cs end.

(** The elements of a cleaned absolute path: the key of a file-system
    object. *)
Definition comps (s : string) : list string :=
  clean_comps true (split_path s).

Definition path_of (cs : list string) : string := "/" ++ join_slash cs.

(** [filepath.Join(a, b)]: join the non-empty elements and clean. *)
Definition join (a b : string) : string :=
  if String.eqb a "" then (if String.eqb b "" then "" else clean b)
  else if String.eqb b "" then clean a
  else clean (a ++ "/" ++ b).

(** [filepath.Abs]: relative paths are joined to the working directory. *)
Definition abs (cwd s : string) : string :=
  if is_abs s then clean s else join cwd s.

(** [filepath.Dir]: everything but the last element, cleaned. *)
Definition dir (s : string) : string :=
  let cs := split_path s in
  match rev cs with
  | [] => "."
  | _ :: rinit => clean (join_slash (rev rinit) ++ (if is_abs s then "/" else ""))
  end.

Fixpoint strip_common (b t : list string) : list string * list string :=
  match b, t with
  | x :: b', y :: t' => if String.eqb x y then strip_common b' t' else (b, t)
  | _, _ => (b, t)
  end.

(** [filepath.Rel] for the absolute paths the archiver passes it: after the
    common leading elements, one ".." per remaining element of the base,
    then the remaining elements of the target. *)
Definition rel (base targ : string) : option string :=
  let b := clean base in
  let t := clean targ in
  if String.eqb b t then Some "." else
  if negb (Bool.eqb (is_abs b) (is_abs t)) then None else
  let '(bl, tl) := strip_common (clean_comps true (split_path b))
                                (clean_comps true (split_path t)) in
  match bl with
  | [] => Some (join_slash tl)
  | x :: _ =>
      if String.eqb x ".." then None
      else Some (join_slash (repeat ".." (length bl) ++ tl))
  end.

(** The chroot guards of the two directions. *)
Definition archive_inside (chroot path : string) : bool :=
  String.prefix chroot path.
Definition extract_inside (chroot path : string) : bool :=
  String.prefix (chroot ++ "/") path || String.eqb path chroot.
End Paths.

(** ** Errors shared by the components *)
Inductive errno := ENOENT | ENOTDIR | EEXIST | ENOTEMPTY | EISDIR | ELOOP.

Inductive error :=
| ECanceled                       (** [context.Canceled] *)
| EOutsideChroot (name : string)  (** "... cannot be archived/extracted outside of chroot" *)
| EUnsupported (method : Z)       (** [zip: unsupported compression algorithm] *)
| ERel                            (** [filepath.Rel] failure *)
| ESys (path : string) (e : errno).

(** Two's-complement wrap-around of a Go [int64]. *)
Definition wrap64 (z : Z) : Z := ((z + 2 ^ 63) mod 2 ^ 64) - 2 ^ 63.

(** ** [countWriter] (src/unnamed/part_000) *)
Module CountWriter.
Section CW.
(** The wrapped [io.Writer]: its state and its [Write] method. *)
Context {W : Type}.
Variable under_write : list byte -> W -> (Z * option error) * W.

(** [countWriter.Write]: [ctx] is [w.ctx.Err()], [counter] is
    [*w.written]. Returns [(n, err)], the writer's state and the
    counter. *)
Definition write (ctx : option error) (w : W) (counter : Z) (p : list byte)
  : (Z * option error) * W * Z :=
  match ctx with
  | Some e => ((0, Some e), w, counter)
  | None =>
      let '((n, err), w') := under_write p w in
      ((n, err), w', wrap64 (counter + n))
  end.
End CW.
End CountWriter.

(** ** [filepool.File] (src/internal/filepool/filepool.go) *)
Module FilePool.
Definition defaultBufferSize : Z := 2 * 1024 * 1024.

Record File := mkFile {
  f_dir : string;
  f_idx : Z;
  f_w : Z;
  f_r : Z;
  f_crc : Z;
  f_open : bool;          (** [f.f != nil]: <dir>/fastzip_<idx> exists *)
  f_disk : list byte;     (** contents of the overflow file *)
  f_buf : list byte;      (** [f.buf]; [[]] is the nil slice *)
  f_size : Z }.

Definition newFile (dir : string) (idx size : Z) : File :=
  mkFile dir idx 0 0 0 false [] [] size.

(** [New]: a negative buffer size means the default. *)
Definition pool_buffer_size (bufferSize : Z) : Z :=
  if bufferSize <? 0 then defaultBufferSize else bufferSize.

Definition zlen {A} (l : list A) : Z := Z.of_nat (length l).

(** [copy(dst[off:], src)] on the whole of [src] that fits. *)
Definition copy_at (dst : list byte) (off : Z) (src : list byte) : list byte :=
  take (Z.to_nat off) dst ++ src ++ drop (Z.to_nat off + length src) dst.

(** [WriteAt] on a regular file: a gap past the end reads as zeros. *)
Definition write_at (disk : list byte) (off : Z) (p : list byte) : list byte :=
  take (Z.to_nat off) disk ++ repeat Byte.x00 (Z.to_nat off - length disk)
    ++ p ++ drop (Z.to_nat off + length p) disk.

(** [File.Write]; creating and writing the overflow file succeed. *)
Definition write (f : File) (p : list byte) : File * Z :=
  let buf := if bool_decide (f_buf f = []) && (0 <? f_size f)
             then repeat Byte.x00 (Z.to_nat (f_size f)) else f_buf f in
  let '(n, p, buf, w) :=
    if f_w f <? zlen buf then
      let n := Z.min (zlen buf - f_w f) (zlen p) in
      (n, drop (Z.to_nat n) p, copy_at buf (f_w f) (take (Z.to_nat n) p), f_w f + n)
    else (0, p, buf, f_w f) in
  if bool_decide (p = []) then
    (mkFile (f_dir f) (f_idx f) w (f_r f) (f_crc f) (f_open f) (f_disk f) buf (f_size f), n)
  else
    let disk := if f_open f then f_disk f else [] in
    let bn := n in
    let n := zlen p in
    (mkFile (f_dir f) (f_idx f) (w + n) (f_r f) (f_crc f) true
            (write_at disk (w - zlen buf) p) buf (f_size f), n + bn).

Definition writes (f : File) (ps : list (list byte)) : File :=
  fold_left (fun f p => fst (write f p)) ps f.

(** [File.reset], called by [FilePool.Put]: the overflow file is truncated,
    not removed. *)
Definition reset (f : File) : File :=
  mkFile (f_dir f) (f_idx f) 0 0 0 (f_open f)
         (if f_open f then [] else f_disk f) (f_buf f) (f_size f).

Definition total (ps : list (list byte)) : Z := fold_right (fun p s => zlen p + s) 0 ps.
End FilePool.

(** ** The ZIP data model ([github.com/klauspost/compress/zip]) *)
Module Zip.

(** [time.Time] by its calendar components. *)
Record Time := mkTime { t_year : Z; t_month : Z; t_day : Z;
                        t_hour : Z; t_min : Z; t_sec : Z }.

Inductive ExtraField :=
| XUnixN (uid gid : Z)    (** Info-ZIP New Unix (0x7875) *)
| XExtTime (mtime : Time). (** extended timestamp (0x5455) *)

(** The fields of [zip.FileHeader] the archiver reads or writes; [h_mode]
    is what [SetMode] stores and [Mode] gives back (the type and
    permission bits of an [os.FileMode] survive the round trip). *)
Record FileHeader := mkHdr {
  h_name : string; h_comment : string; h_flags : Z;
  h_creator : Z; h_reader : Z; h_method : Z;
  h_modified : Time; h_mdate : Z; h_mtime : Z;
  h_crc : Z; h_csize : Z; h_usize : Z;
  h_extra : list ExtraField; h_mode : Z }.

Definition set_method (h : FileHeader) (m : Z) : FileHeader :=
  mkHdr (h_name h) (h_comment h) (h_flags h) (h_creator h) (h_reader h) m
        (h_modified h) (h_mdate h) (h_mtime h) (h_crc h) (h_csize h) (h_usize h)
        (h_extra h) (h_mode h).
Definition set_csize (h : FileHeader) (c : Z) : FileHeader :=
  mkHdr (h_name h) (h_comment h) (h_flags h) (h_creator h) (h_reader h) (h_method h)
        (h_modified h) (h_mdate h) (h_mtime h) (h_crc h) c (h_usize h)
        (h_extra h) (h_mode h).
Definition set_crc (h : FileHeader) (c : Z) : FileHeader :=
  mkHdr (h_name h) (h_comment h) (h_flags h) (h_creator h) (h_reader h) (h_method h)
        (h_modified h) (h_mdate h) (h_mtime h) c (h_csize h) (h_usize h)
        (h_extra h) (h_mode h).
Definition set_sizes (h : FileHeader) (c u : Z) : FileHeader :=
  mkHdr (h_name h) (h_comment h) (h_flags h) (h_creator h) (h_reader h) (h_method h)
        (h_modified h) (h_mdate h) (h_mtime h) (h_crc h) c u
        (h_extra h) (h_mode h).
Definition clear_descriptor (h : FileHeader) : FileHeader :=
  mkHdr (h_name h) (h_comment h) (Z.land (h_flags h) (Z.lnot 8)) (h_creator h) (h_reader h)
        (h_method h) (h_modified h) (h_mdate h) (h_mtime h) (h_crc h) (h_csize h)
        (h_usize h) (h_extra h) (h_mode h).
Definition add_extra (h : FileHeader) (x : list ExtraField) : FileHeader :=
  mkHdr (h_name h) (h_comment h) (h_flags h) (h_creator h) (h_reader h) (h_method h)
        (h_modified h) (h_mdate h) (h_mtime h) (h_crc h) (h_csize h) (h_usize h)
        (h_extra h ++ x) (h_mode h).

Record ZipEntry := mkEntry { ze_hdr : FileHeader; ze_data : list byte }.

Definition Store : Z := 0.
Definition Deflate : Z := 8.

(** A compressor: the bytes written to it, mapped to the bytes it has
    produced once closed. *)
Definition Compressor := list byte -> list byte.

(** CRC-32/IEEE, bit by bit (reflected polynomial 0xEDB88320). *)
Definition crc_shift (c : Z) : Z :=
  if Z.odd c then Z.lxor (Z.shiftr c 1) 3988292384 else Z.shiftr c 1.
Definition crc_byte (c : Z) (b : byte) : Z :=
  Nat.iter 8 crc_shift (Z.lxor c (Z.of_N (Byte.to_N b))).
Definition crc32 (l : list byte) : Z :=
  Z.lxor (fold_left crc_byte l 4294967295) 4294967295.

(** [utf8.DecodeRune] on bytes: the rune and its length, [(0xFFFD, 1)] on
    an invalid or truncated sequence. *)
Definition cont (b : Z) : bool := (128 <=? b) && (b <=? 191).
Definition decode_rune (l : list Z) : Z * nat :=
  match l with
  | [] => (65533, 0%nat)
  | b0 :: r =>
    if b0 <? 128 then (b0, 1%nat)
    else if (194 <=? b0) && (b0 <=? 223) then
      match r with
      | b1 :: _ => if cont b1 then (Z.lor (Z.shiftl (Z.land b0 31) 6) (Z.land b1 63), 2%nat)
                   else (65533, 1%nat)
      | _ => (65533, 1%nat)
      end
    else if (224 <=? b0) && (b0 <=? 239) then
      match r with
      | b1 :: b2 :: _ =>
          let lo := if b0 =? 224 then 160 else 128 in
          let hi := if b0 =? 237 then 159 else 191 in
          if (lo <=? b1) && (b1 <=? hi) && cont b2 then
            (Z.lor (Z.shiftl (Z.land b0 15) 12)
               (Z.lor (Z.shiftl (Z.land b1 63) 6) (Z.land b2 63)), 3%nat)
          else (65533, 1%nat)
      | _ => (65533, 1%nat)
      end
    else if (240 <=? b0) && (b0 <=? 244) then
      match r with
      | b1 :: b2 :: b3 :: _ =>
          let lo := if b0 =? 240 then 144 else 128 in
          let hi := if b0 =? 244 then 143 else 191 in
          if (lo <=? b1) && (b1 <=? hi) && cont b2 && cont b3 then
            (Z.lor (Z.shiftl (Z.land b0 7) 18)
               (Z.lor (Z.shiftl (Z.land b1 63) 12)
                  (Z.lor (Z.shiftl (Z.land b2 63) 6) (Z.land b3 63))), 4%nat)
          else (65533, 1%nat)
      | _ => (65533, 1%nat)
      end
    else (65533, 1%nat)
  end.

Fixpoint detect_go (fuel : nat) (l : list Z) (req : bool) : bool * bool :=
  match fuel with
  | O => (true, req)
  | S fuel =>
    match l with
    | [] => (true, req)
    | _ =>
      let '(r, size) := decode_rune l in
      if (r <? 32) || (125 <? r) || (r =? 92) then
        if (r =? 65533) && (size =? 1)%nat then (false, false)
        else detect_go fuel (drop size l) true
      else detect_go fuel (drop size l) req
    end
  end.

Definition bytes_of (s : string) : list Z :=
  map (fun a => Z.of_N (Ascii.N_of_ascii a)) (list_ascii_of_string s).

(** [detectUTF8]: (valid, require). A name requires the UTF-8 flag when
    it has a code point outside [0x20, 0x7D] or 0x5C. *)
Definition detectUTF8 (s : string) : bool * bool :=
  detect_go (String.length s) (bytes_of s) false.

(** [timeToMsDosTime]. *)
Definition msdos_date (t : Time) : Z :=
  (t_day t + Z.shiftl (t_month t) 5 + Z.shiftl (t_year t - 1980) 9) mod 65536.
Definition msdos_time (t : Time) : Z :=
  (t_sec t / 2 + Z.shiftl (t_min t) 5 + Z.shiftl (t_hour t) 11) mod 65536.

(** The local-header preparation of APPNOTE 6.3 that [CreateHeader] does
    and that the archiver repeats before [CreateRaw]. *)
Definition appnote_header (h : FileHeader) : FileHeader :=
  let '(v1, r1) := detectUTF8 (h_name h) in
  let '(v2, r2) := detectUTF8 (h_comment h) in
  let flags := if (r1 || r2) && v1 && v2 then Z.lor (h_flags h) 2048 else h_flags h in
  mkHdr (h_name h) (h_comment h) (Z.lor flags 8) 20 20 (h_method h)
        (h_modified h) (msdos_date (h_modified h)) (msdos_time (h_modified h))
        (h_crc h) (h_csize h) (h_usize h)
        (h_extra h ++ [XExtTime (h_modified h)]) (h_mode h).

(** The writer's compressor for a method: the registered ones, else the
    built-in Store. *)
Definition zw_compressor (comps : Z -> option Compressor) (m : Z) : option Compressor :=
  match comps m with
  | Some c => Some c
  | None => if m =? Store then Some (fun l => l) else None
  end.

Definition ends_with_slash (s : string) : bool :=
  match String.rev s with String "/"%char _ => true | _ => false end.

(** [Writer.CreateHeader] followed by writing [payload] and closing the
    entry: a directory is stored empty, other entries get their data
    compressed with the header's method and the sizes and CRC that were
    counted. A directory gets no data descriptor. *)
Definition create_header (comps : Z -> option Compressor) (h : FileHeader)
    (payload : list byte) : option ZipEntry :=
  let h := appnote_header h in
  if ends_with_slash (h_name h) then
    Some (mkEntry (clear_descriptor (set_sizes (set_method h Store) 0 0)) [])
  else
    match zw_compressor comps (h_method h) with
    | None => None
    | Some c =>
        let data := c payload in
        Some (mkEntry (set_crc (set_sizes h (FilePool.zlen data) (FilePool.zlen payload))
                               (crc32 payload)) data)
    end.

(** [Writer.CreateRaw] followed by copying pre-compressed bytes: the header
    is written as given. *)
Definition create_raw (h : FileHeader) (staged : list byte) : ZipEntry :=
  mkEntry h staged.
End Zip.

(** ** [os.FileMode] bits *)
Module Mode.
Definition ModeDir : Z := 2 ^ 31.
Definition ModeSymlink : Z := 2 ^ 27.
Definition ModeDevice : Z := 2 ^ 26.
Definition ModeNamedPipe : Z := 2 ^ 25.
Definition ModeSocket : Z := 2 ^ 24.
Definition ModeCharDevice : Z := 2 ^ 21.
Definition irregularModes : Z :=
  Z.lor ModeSocket (Z.lor ModeDevice (Z.lor ModeCharDevice ModeNamedPipe)).

Definition is_irregular (m : Z) : bool := negb (Z.land m irregularModes =? 0).
Definition is_symlink (m : Z) : bool := negb (Z.land m ModeSymlink =? 0).
Definition is_dir (m : Z) : bool := negb (Z.land m ModeDir =? 0).
End Mode.

(** ** The archiver (src/archiver.go, src/archiver_unix.go) *)
Module Archiver.
Import Zip.

(** What [os.FileInfo] and the file system give the archiver for one
    path: [Size], [Mode], [ModTime], the uid/gid of [Sys()] when it is a
    [syscall.Stat_t], and what [os.Open] reads and [os.Readlink] returns. *)
Record FileInfo := mkFI {
  fi_size : Z; fi_mode : Z; fi_modtime : Time;
  fi_sys : option (Z * Z); fi_contents : list byte; fi_link : string }.

(** An [Archiver] after [NewArchiver]: [ar_compressors] is
    [a.compressors] (Deflate is registered by [NewArchiver]); [ar_cwd] is
    the working directory [filepath.Abs] resolves against. *)
Record Archiver := mkAr {
  ar_chroot : string; ar_cwd : string;
  ar_method : Z; ar_concurrency : Z;
  ar_compressors : Z -> option Compressor }.

Definition zero_time : Time := mkTime 1 1 1 0 0 0.

(** [fileInfoHeader] on the zero [zip.FileHeader] of [hdrs[i]]. *)
Definition fileInfoHeader (name : string) (fi : FileInfo) : FileHeader :=
  let nm := if Mode.is_dir (fi_mode fi) then (name ++ "/")%string else name in
  mkHdr nm "" 0 0 0 Store (fi_modtime fi) 0 0 0 0
        (fi_size fi mod 2 ^ 64) [] (fi_mode fi).

(** [createHeader] (unix): the Info-ZIP New Unix field, then
    [zw.CreateHeader]. *)
Definition unix_extra (fi : FileInfo) : list ExtraField :=
  match fi_sys fi with Some (u, g) => [XUnixN u g] | None => [] end.

Definition createHeader (a : Archiver) (fi : FileInfo) (h : FileHeader)
    (payload : list byte) : option ZipEntry :=
  create_header (ar_compressors a) (add_extra h (unix_extra fi)) payload.

(** Modelled from the spec: the unix [createHeaderRaw] that
    [compressFile] calls is not in src/ (only [createRaw] and the Windows
    [createHeaderRaw] are). Following the spec, it sets the UTF-8 flag when
    the name or comment needs it and both are valid, sets both versions to
    20, derives the MS-DOS date and time, appends the extended timestamp and
    sets the data-descriptor flag; it then does what [createRaw] does: the
    Info-ZIP New Unix field and [zw.CreateRaw]. *)
Definition createHeaderRaw (fi : FileInfo) (h : FileHeader)
    (staged : list byte) : ZipEntry :=
  create_raw (add_extra (appnote_header h) (unix_extra fi)) staged.

(** The effect of one emission under the archive mutex: the entry written
    (if any), the bytes that went through the [countWriter], and the
    error returned. *)
Record Emit := mkEmit { em_entry : option ZipEntry; em_bytes : Z; em_err : option error }.

(** Copying [payload] through [countWriter{w, &a.written, ctx}]: with
    [ctx] cancelled the first [Write] fails and nothing is counted. *)
Definition copy_counted (cancelled : bool) (payload : list byte) : list byte * Z * option error :=
  if cancelled && negb (bool_decide (payload = [])) then ([], 0, Some ECanceled)
  else (payload, FilePool.zlen payload, None).

(** [compressFileSimple]. *)
Definition compressFileSimple (a : Archiver) (cancelled : bool) (fi : FileInfo)
    (h : FileHeader) (data : list byte) : Emit :=
  let '(copied, n, err) := copy_counted cancelled data in
  match createHeader a fi h copied with
  | None => mkEmit None 0 (Some (EUnsupported (h_method h)))
  | Some e => mkEmit (Some e) n err
  end.

(** [compressFile]; [tmp] tells whether a file-pool buffer was passed. *)
Definition compressFile (a : Archiver) (cancelled : bool) (fi : FileInfo)
    (h : FileHeader) (data : list byte) (tmp : bool) : Emit :=
  match (if tmp then ar_compressors a (h_method h) else None) with
  | None => compressFileSimple a cancelled fi h data
  | Some comp =>
      let staged := comp data in
      let h := set_csize h (FilePool.zlen staged) in
      if h_usize h <? h_csize h then
        compressFileSimple a cancelled fi (set_method h Store) data
      else
        let h := set_crc h (crc32 data) in
        let '(copied, n, err) := copy_counted cancelled staged in
        mkEmit (Some (createHeaderRaw fi h copied)) n err
  end.

(** [createDirectory] and [createSymlink] (the link is written to the
    entry directly, not through the [countWriter]). *)
Definition createDirectory (a : Archiver) (fi : FileInfo) (h : FileHeader) : Emit :=
  match createHeader a fi h [] with
  | None => mkEmit None 0 (Some (EUnsupported (h_method h)))
  | Some e => mkEmit (Some e) 0 None
  end.
Definition createSymlink (a : Archiver) (fi : FileInfo) (h : FileHeader) : Emit :=
  match createHeader a fi h (list_byte_of_string (fi_link fi)) with
  | None => mkEmit None 0 (Some (EUnsupported (h_method h)))
  | Some e => mkEmit (Some e) 0 None
  end.

(** *** The [Archive] loop and its workers *)
Inductive wstate := Waiting | Holding.

(** A worker spawned by [wg.Go]: its key, header and file. *)
Record Job := mkJob { j_key : string; j_fi : FileInfo; j_hdr : FileHeader }.

Inductive Disp :=
| DRun (todo : list string)   (** the loop, at the remaining sorted names *)
| DDone (res : option error). (** the loop has returned *)

Record AState := mkA {
  a_disp : Disp;
  a_workers : list (Job * wstate);
  a_free : nat;                      (** free file-pool buffers *)
  a_out : list (string * ZipEntry);  (** entries written, with their key *)
  a_written : Z; a_entries : Z;      (** [a.written], [a.entries] *)
  a_werr : option error }.           (** first worker error; cancels ctx *)

Definition set_disp (st : AState) (d : Disp) : AState :=
  mkA d (a_workers st) (a_free st) (a_out st) (a_written st) (a_entries st) (a_werr st).

(** Record an emission for key [k]: the entry, the byte counter, and
    [incOnSuccess(&a.entries, err)]. *)
Definition record (st : AState) (k : string) (em : Emit) : AState :=
  mkA (a_disp st) (a_workers st) (a_free st)
      (a_out st ++ match em_entry em with Some e => [(k, e)] | None => [] end)
      (wrap64 (a_written st + em_bytes em))
      (match em_err em with None => wrap64 (a_entries st + 1) | Some _ => a_entries st end)
      (a_werr st).

Definition cancelled (st : AState) : bool :=
  match a_werr st with Some _ => true | None => false end.

(** One iteration of the [for i, name := range names] loop. [pooled] is
    [fp != nil]. *)
Definition dispatch_one (a : Archiver) (files : gmap string FileInfo) (pooled : bool)
    (st : AState) (name : string) (rest : list string) : AState :=
  match files !! name with
  | None => set_disp st (DRun rest)
  | Some fi =>
    if Mode.is_irregular (fi_mode fi) then set_disp st (DRun rest) else
    let path := Paths.abs (ar_cwd a) name in
    if negb (Paths.archive_inside (ar_chroot a) path)
    then set_disp st (DDone (Some (EOutsideChroot name))) else
    match Paths.rel (ar_chroot a) path with
    | None => set_disp st (DDone (Some ERel))
    | Some r =>
      let h := fileInfoHeader r fi in
      if cancelled st then set_disp st (DDone (Some ECanceled)) else
      let finish (em : Emit) :=
        set_disp (record st name em)
                 (match em_err em with Some e => DDone (Some e) | None => DRun rest end) in
      if Mode.is_symlink (h_mode h) then finish (createSymlink a fi h)
      else if Mode.is_dir (h_mode h) then finish (createDirectory a fi h)
      else
        let h := if 0 <? h_usize h then set_method h (ar_method a) else h in
        if pooled then
          mkA (DRun rest) (a_workers st ++ [(mkJob name fi h, Waiting)]) (a_free st)
              (a_out st) (a_written st) (a_entries st) (a_werr st)
        else finish (compressFile a false fi h (fi_contents fi) false)
    end
  end.

(** A worker's [createFile] under the mutex, [fp.Put], [incOnSuccess] and
    the errgroup's first-error bookkeeping. *)
Definition worker_emit (a : Archiver) (st : AState) (j : Job)
    (others : list (Job * wstate)) : AState :=
  let em := compressFile a (cancelled st) (j_fi j) (j_hdr j) (fi_contents (j_fi j)) true in
  let st' := record st (j_key j) em in
  mkA (a_disp st') others (S (a_free st')) (a_out st') (a_written st') (a_entries st')
      (match a_werr st' with Some e => Some e | None => em_err em end).

Inductive step (a : Archiver) (files : gmap string FileInfo) (pooled : bool)
  : AState -> AState -> Prop :=
| step_dispatch st name rest :
    a_disp st = DRun (name :: rest) ->
    step a files pooled st (dispatch_one a files pooled st name rest)
| step_finish st :
    a_disp st = DRun [] -> a_workers st = [] ->
    step a files pooled st (set_disp st (DDone None))
| step_acquire st w1 j w2 :
    a_workers st = w1 ++ (j, Waiting) :: w2 -> (0 < a_free st)%nat ->
    step a files pooled st
      (mkA (a_disp st) (w1 ++ (j, Holding) :: w2) (pred (a_free st)) (a_out st)
           (a_written st) (a_entries st) (a_werr st))
| step_emit st w1 j w2 :
    a_workers st = w1 ++ (j, Holding) :: w2 ->
    step a files pooled st (worker_emit a st j (w1 ++ w2)).

(** The sorted names, the effective concurrency and the initial state. *)
Definition names (files : gmap string FileInfo) : list string :=
  merge_sort String.le (map fst (map_to_list files)).
Definition concurrency (a : Archiver) (files : gmap string FileInfo) : Z :=
  Z.min (ar_concurrency a) (Z.of_nat (size files)).
Definition pooled (a : Archiver) (files : gmap string FileInfo) : bool :=
  1 <? concurrency a files.
Definition init (a : Archiver) (files : gmap string FileInfo) (written entries : Z) : AState :=
  mkA (DRun (names files)) [] (Z.to_nat (concurrency a files)) [] written entries None.

Definition terminal (st : AState) : Prop :=
  (exists r, a_disp st = DDone r) /\ a_workers st = [].

(** What [Archive] returns once the deferred [wg.Wait] is done. *)
Definition result (st : AState) : option error :=
  match a_werr st with
  | Some e => Some e
  | None => match a_disp st with DDone r => r | DRun _ => None end
  end.

Definition runs (a : Archiver) (files : gmap string FileInfo) (written entries : Z)
    (st : AState) : Prop :=
  rtc (step a files (pooled a files)) (init a files written entries) st.

(** An executable scheduler, to exhibit runs. *)
Inductive choice := CDispatch | CFinish | CAcquire (i : nat) | CEmit (i : nat).

Definition run_one (a : Archiver) (files : gmap string FileInfo) (pooled : bool)
    (c : choice) (st : AState) : option AState :=
  match c with
  | CDispatch =>
      match a_disp st with
      | DRun (name :: rest) => Some (dispatch_one a files pooled st name rest)
      | _ => None
      end
  | CFinish =>
      match a_disp st, a_workers st with
      | DRun [], [] => Some (set_disp st (DDone None))
      | _, _ => None
      end
  | CAcquire i =>
      match a_workers st !! i with
      | Some (j, Waiting) =>
          if (0 <? a_free st)%nat then
            Some (mkA (a_disp st) (take i (a_workers st) ++ (j, Holding) :: drop (S i) (a_workers st))
                      (pred (a_free st)) (a_out st) (a_written st) (a_entries st) (a_werr st))
          else None
      | _ => None
      end
  | CEmit i =>
      match a_workers st !! i with
      | Some (j, Holding) =>
          Some (worker_emit a st j (take i (a_workers st) ++ drop (S i) (a_workers st)))
      | _ => None
      end
  end.

Fixpoint run (a : Archiver) (files : gmap string FileInfo) (pooled : bool)
    (cs : list choice) (st : AState) : option AState :=
  match cs with
  | [] => Some st
  | c :: cs => match run_one a files pooled c st with
               | Some st' => run a files pooled cs st'
               | None => None
               end
  end.

(** [hdrs[i]] as the loop leaves it for a file: [fileInfoHeader], then,
    for a regular file with data, the configured method. *)
Definition file_header (a : Archiver) (fi : FileInfo) (r : string) : FileHeader :=
  let h := fileInfoHeader r fi in
  if Mode.is_symlink (h_mode h) || Mode.is_dir (h_mode h) then h
  else if 0 <? h_usize h then set_method h (ar_method a) else h.

(** The emission the loop's [switch] leads to, inline or in a worker
    ([tmp] is a pool buffer exactly when the pool exists). *)
Definition item_emit (a : Archiver) (tmp cancelled : bool) (fi : FileInfo)
    (h : FileHeader) : Emit :=
  if Mode.is_symlink (h_mode h) then createSymlink a fi h
  else if Mode.is_dir (h_mode h) then createDirectory a fi h
  else compressFile a cancelled fi h (fi_contents fi) tmp.
End Archiver.

(** ** A DEFLATE encoder for concrete runs: stored blocks (RFC 1951,
    3.2.4), at most 65535 bytes each, the last one marked final. *)
Module StoredDeflate.
Definition byte_of_Z (z : Z) : byte :=
  match Byte.of_N (Z.to_N (z mod 256)) with Some b => b | None => Byte.x00 end.
Definition le16 (n : Z) : list byte := [byte_of_Z n; byte_of_Z (n / 256)].

Definition block (final : bool) (chunk : list byte) : list byte :=
  let n := FilePool.zlen chunk in
  [if final then Byte.x01 else Byte.x00] ++ le16 n ++ le16 (65535 - n) ++ chunk.

Fixpoint blocks (fuel : nat) (l : list byte) : list byte :=
  match fuel with
  | O => block true l
  | S fuel =>
      if FilePool.zlen l <=? 65535 then block true l
      else block false (take (Z.to_nat 65535) l) ++ blocks fuel (drop (Z.to_nat 65535) l)
  end.

Definition compress (l : list byte) : list byte := blocks (length l) l.
End StoredDeflate.

(** ** The file system the extractor works on (POSIX semantics of the
    primitives [os.MkdirAll], [os.Mkdir], [os.Remove], [os.OpenFile],
    [os.Symlink], [unix.Lutimes], [unix.Fchmodat]) *)
Module FS.
Inductive Kind := KDir | KFile (data : list byte) | KLink (target : string).
Record Node := mkNode { nd_kind : Kind; nd_mode : Z; nd_mtime : Z }.

(** Objects keyed by their physical path: the elements from the root,
    none of them a symlink. *)
Abbreviation FS := (gmap (list string) Node).

(** The state-and-error monad of a sequence of system calls: a failing
    call leaves the effects of the earlier ones in place. *)
Definition M (A : Type) := FS -> FS * (error + A).
Definition ret {A} (x : A) : M A := fun fs => (fs, inr x).
Definition fail {A} (e : error) : M A := fun fs => (fs, inl e).
Definition bind {A B} (m : M A) (k : A -> M B) : M B :=
  fun fs => match m fs with
            | (fs', inl e) => (fs', inl e)
            | (fs', inr x) => k x fs'
            end.
Notation "x <-- m ;; k" := (bind m (fun x => k))
  (at level 100, m at next level, right associativity).
Notation "m ;;; k" := (bind m (fun _ => k)) (at level 100, right associativity).

(** Path resolution, one element at a time from the physical directory
    [cur]; ".." goes to the physical parent; a symlink met before the last
    element (or as the last one when [follow]) is expanded, at most
    [fuel] steps in all ([ELOOP] beyond). The result is the physical path
    of the object (which need not exist; its parent does). *)
Fixpoint walk (fuel : nat) (fs : FS) (cur : list string) (cs : list string)
    (follow : bool) : errno + list string :=
  match fuel with
  | O => inl ELOOP
  | S fuel =>
    match cs with
    | [] => inr cur
    | c :: rest =>
      if String.eqb c "" || String.eqb c "." then walk fuel fs cur rest follow
      else if String.eqb c ".." then walk fuel fs (removelast cur) rest follow
      else
        let next := cur ++ [c] in
        match fs !! next with
        | None => match rest with [] => inr next | _ => inl ENOENT end
        | Some nd =>
          match nd_kind nd with
          | KDir => walk fuel fs next rest follow
          | KFile _ => match rest with [] => inr next | _ => inl ENOTDIR end
          | KLink t =>
              if bool_decide (rest = []) && negb follow then inr next
              else walk fuel fs (if Paths.is_abs t then [] else cur)
                        (Paths.split_path t ++ rest) follow
          end
        end
    end
  end.

Definition walk_fuel : nat := 256.

Definition sys {A} (p : string) (r : errno + A) : error + A :=
  match r with inl e => inl (ESys p e) | inr x => inr x end.

(** [lstat]-style (last element not followed) and [stat]-style lookup. *)
Definition locate (fs : FS) (p : string) : error + list string :=
  sys p (walk walk_fuel fs [] (Paths.split_path p) false).
Definition resolve (fs : FS) (p : string) : error + list string :=
  sys p (walk walk_fuel fs [] (Paths.split_path p) true).

Definition lstat (fs : FS) (p : string) : option Node :=
  match locate fs p with inr l => fs !! l | inl _ => None end.
Definition stat (fs : FS) (p : string) : error + Node :=
  match resolve fs p with
  | inl e => inl e
  | inr l => match fs !! l with Some n => inr n | None => inl (ESys p ENOENT) end
  end.

Definition is_dir_node (n : Node) : bool := match nd_kind n with KDir => true | _ => false end.

Definition set_mtime (n : Node) (t : Z) : Node := mkNode (nd_kind n) (nd_mode n) t.
Definition set_mode (n : Node) (m : Z) : Node := mkNode (nd_kind n) m (nd_mtime n).

(** Adding or removing a name updates the directory's mtime. *)
Definition touch_parent (fs : FS) (loc : list string) (now : Z) : FS :=
  match loc with
  | [] => fs
  | _ => let par := removelast loc in
         match fs !! par with
         | Some n => <[par := set_mtime n now]> fs
         | None => fs
         end
  end.

Definition has_child (fs : FS) (loc : list string) : bool :=
  existsb (fun kv => bool_decide (length kv.1 = S (length loc)) &&
                     bool_decide (take (length loc) kv.1 = loc))
          (map_to_list fs).

(** [os.Mkdir(p, 0777)]. *)
Definition mkdir (p : string) (now : Z) : M unit := fun fs =>
  match locate fs p with
  | inl e => (fs, inl e)
  | inr loc =>
    match fs !! loc with
    | Some _ => (fs, inl (ESys p EEXIST))
    | None => (touch_parent (<[loc := mkNode KDir 511 now]> fs) loc now, inr tt)
    end
  end.

(** [os.MkdirAll(p, 0777)], on the reversed elements of a clean absolute
    path: done if [Stat] finds a directory, else make the parent and then
    [Mkdir], accepting a directory that is there after all. *)
Fixpoint mkdir_all_rev (rcs : list string) (now : Z) : M unit := fun fs =>
  let p := Paths.path_of (rev rcs) in
  match stat fs p with
  | inr n => if is_dir_node n then (fs, inr tt) else (fs, inl (ESys p ENOTDIR))
  | inl _ =>
    match rcs with
    | [] => mkdir p now fs
    | _ :: parent =>
      let '(fs1, r1) := match parent with
                        | [] => (fs, inr tt)
                        | _ => mkdir_all_rev parent now fs
                        end in
      match r1 with
      | inl e => (fs1, inl e)
      | inr _ =>
        match mkdir p now fs1 with
        | (fs2, inr _) => (fs2, inr tt)
        | (fs2, inl e) =>
            match lstat fs2 p with
            | Some n => if is_dir_node n then (fs2, inr tt) else (fs2, inl e)
            | None => (fs2, inl e)
            end
        end
      end
    end
  end.
Definition mkdir_all (p : string) (now : Z) : M unit :=
  mkdir_all_rev (rev (Paths.comps p)) now.

(** [os.Remove]: unlink a file or link, or remove an empty directory. *)
Definition remove (p : string) (now : Z) : M unit := fun fs =>
  match locate fs p with
  | inl e => (fs, inl e)
  | inr loc =>
    match fs !! loc with
    | None => (fs, inl (ESys p ENOENT))
    | Some n =>
      if is_dir_node n && has_child fs loc then (fs, inl (ESys p ENOTEMPTY))
      else (touch_parent (delete loc fs) loc now, inr tt)
    end
  end.

Definition is_not_exist (e : error) : bool :=
  match e with ESys _ ENOENT => true | _ => false end.

(** [if err := os.Remove(path); err != nil && !os.IsNotExist(err)]. *)
Definition remove_if_exists (p : string) (now : Z) : M unit := fun fs =>
  match remove p now fs with
  | (fs', inl e) => if is_not_exist e then (fs', inr tt) else (fs', inl e)
  | r => r
  end.

(** [os.OpenFile(p, O_WRONLY|O_CREATE|O_TRUNC, 0666)]: follows a final
    symlink; returns the physical path of the opened file. *)
Definition open_trunc (p : string) (now : Z) : M (list string) := fun fs =>
  match resolve fs p with
  | inl e => (fs, inl e)
  | inr loc =>
    match fs !! loc with
    | Some n =>
      match nd_kind n with
      | KFile _ => (<[loc := mkNode (KFile []) (nd_mode n) now]> fs, inr loc)
      | _ => (fs, inl (ESys p EISDIR))
      end
    | None => (touch_parent (<[loc := mkNode (KFile []) 438 now]> fs) loc now, inr loc)
    end
  end.

(** Writing the whole of [data] to the opened file. *)
Definition write_all (loc : list string) (data : list byte) (now : Z) : M unit := fun fs =>
  match fs !! loc with
  | Some n => (<[loc := mkNode (KFile data) (nd_mode n) now]> fs, inr tt)
  | None => (fs, inr tt)
  end.

(** [os.Symlink(target, p)]: the link is made where [p] resolves, its
    parent followed through symlinks. *)
Definition symlink (target p : string) (now : Z) : M unit := fun fs =>
  match locate fs p with
  | inl e => (fs, inl e)
  | inr loc =>
    match fs !! loc with
    | Some _ => (fs, inl (ESys p EEXIST))
    | None => (touch_parent (<[loc := mkNode (KLink target) 511 now]> fs) loc now, inr tt)
    end
  end.

(** [lchtimes]: [unix.Lutimes], which does not follow a final symlink. *)
Definition lutimes (p : string) (mtime : Z) : M unit := fun fs =>
  match locate fs p with
  | inl e => (fs, inl e)
  | inr loc =>
    match fs !! loc with
    | Some n => (<[loc := set_mtime n mtime]> fs, inr tt)
    | None => (fs, inl (ESys p ENOENT))
    end
  end.

(** [lchmod] on Linux: nothing for a symlink mode, otherwise
    [unix.Fchmodat] with no flags, which follows symlinks; the kernel keeps
    the low permission bits. *)
Definition lchmod (p : string) (mode : Z) : M unit := fun fs =>
  if Mode.is_symlink mode then (fs, inr tt) else
  match resolve fs p with
  | inl e => (fs, inl e)
  | inr loc =>
    match fs !! loc with
    | Some n => (<[loc := set_mode n (Z.land mode 511)]> fs, inr tt)
    | None => (fs, inl (ESys p ENOENT))
    end
  end.
End FS.

(** ** The extractor (src/unnamed/part_004) *)
Module Extractor.
Import FS.

(** A central-directory record as the extractor reads it: [Name],
    [Mode()], [Modified] (in whole seconds) and the decompressed data (the
    target, for a symlink). *)
Record ZFile := mkZF { zf_name : string; zf_mode : Z; zf_modified : Z; zf_data : list byte }.

(** [e.chroot] (absolute), [e.options.concurrency], [e.zr.File], the
    working directory of [filepath.Abs] and the clock's [time.Now()]. *)
Record Extractor := mkEx {
  ex_chroot : string; ex_cwd : string; ex_concurrency : nat;
  ex_files : list ZFile; ex_now : Z }.

Definition entry_path (e : Extractor) (zf : ZFile) : string :=
  Paths.abs (ex_cwd e) (Paths.join (ex_chroot e) (zf_name zf)).

(** [updateFileMetadata]: the extra field parses, and with no chown error
    handler a failing [lchown] is ignored, so ownership is left out. *)
Definition updateFileMetadata (p : string) (zf : ZFile) : M unit :=
  lutimes p (zf_modified zf) ;;; lchmod p (zf_mode zf).

(** [createDirectory]: [os.Mkdir], an existing entry is no error. *)
Definition createDirectory (now : Z) (p : string) : M unit := fun fs =>
  match mkdir p now fs with
  | (fs', inl (ESys _ EEXIST)) => (fs', inr tt)
  | r => r
  end.

(** [createFile]: the bytes go through the buffered [countWriter]; a
    cancelled context fails the first [Write] (an empty file writes
    nothing). Returns the bytes counted. *)
Definition createFile (cancelled : bool) (now : Z) (p : string) (zf : ZFile) : M Z :=
  remove_if_exists p now ;;;
  loc <-- open_trunc p now ;;
  if cancelled && negb (bool_decide (zf_data zf = [])) then fail ECanceled
  else write_all loc (zf_data zf) now ;;; ret (FilePool.zlen (zf_data zf)).

(** [createSymlink]. *)
Definition createSymlink (now : Z) (p : string) (zf : ZFile) : M unit :=
  remove_if_exists p now ;;;
  symlink (string_of_list_byte (zf_data zf)) p now ;;;
  updateFileMetadata p zf.

(** Phase 2: every symlink entry in archive order; [entries] counts. *)
Fixpoint phase2 (e : Extractor) (files : list ZFile) (fs : FS) (entries : Z)
  : FS * Z * option error :=
  match files with
  | [] => (fs, entries, None)
  | zf :: rest =>
    if negb (Mode.is_symlink (zf_mode zf)) then phase2 e rest fs entries else
    match createSymlink (ex_now e) (entry_path e zf) zf fs with
    | (fs', inl err) => (fs', entries, Some err)
    | (fs', inr _) => phase2 e rest fs' (wrap64 (entries + 1))
    end
  end.

(** Phase 3: the metadata of every directory entry, in archive order. *)
Fixpoint phase3 (e : Extractor) (files : list ZFile) : M unit :=
  match files with
  | [] => ret tt
  | zf :: rest =>
    if Mode.is_dir (zf_mode zf)
    then updateFileMetadata (entry_path e zf) zf ;;; phase3 e rest
    else phase3 e rest
  end.

(** *** Phase 1: the loop and its workers *)
Inductive XDisp :=
| XRun (todo : list ZFile)                    (** at the remaining entries *)
| XSpawn (p : string) (zf : ZFile) (todo : list ZFile) (** at [limiter <- struct{}{}] *)
| XDone (res : option error).                 (** [Extract] has returned *)

Record XState := mkX {
  x_fs : FS; x_disp : XDisp;
  x_workers : list (string * ZFile);   (** running [wg.Go] workers *)
  x_werr : option error;               (** first worker error *)
  x_written : Z; x_entries : Z }.

Definition x_cancelled (st : XState) : bool :=
  match x_werr st with Some _ => true | None => false end.

Definition with_disp (st : XState) (fs : FS) (d : XDisp) (entries : Z) : XState :=
  mkX fs d (x_workers st) (x_werr st) (x_written st) entries.

(** One iteration of the phase-1 loop. *)
Definition dispatch_one (e : Extractor) (st : XState) (zf : ZFile) (rest : list ZFile)
  : XState :=
  let fs := x_fs st in
  if Mode.is_irregular (zf_mode zf) then with_disp st fs (XRun rest) (x_entries st) else
  let p := entry_path e zf in
  if negb (Paths.extract_inside (ex_chroot e) p)
  then with_disp st fs (XDone (Some (EOutsideChroot p))) (x_entries st) else
  match mkdir_all (Paths.dir p) (ex_now e) fs with
  | (fs1, inl err) => with_disp st fs1 (XDone (Some err)) (x_entries st)
  | (fs1, inr _) =>
    if x_cancelled st then with_disp st fs1 (XDone (Some ECanceled)) (x_entries st)
    else if Mode.is_symlink (zf_mode zf) then with_disp st fs1 (XRun rest) (x_entries st)
    else if Mode.is_dir (zf_mode zf) then
      match createDirectory (ex_now e) p fs1 with
      | (fs2, inl err) => with_disp st fs2 (XDone (Some err)) (x_entries st)
      | (fs2, inr _) => with_disp st fs2 (XRun rest) (wrap64 (x_entries st + 1))
      end
    else with_disp st fs1 (XSpawn p zf rest) (x_entries st)
  end.

(** A worker: [createFile] ([incOnSuccess] inside it), then
    [updateFileMetadata]; an error is the errgroup's if it is the first. *)
Definition work (e : Extractor) (st : XState) (p : string) (zf : ZFile)
    (others : list (string * ZFile)) : XState :=
  let '(fs1, r1) := createFile (x_cancelled st) (ex_now e) p zf (x_fs st) in
  match r1 with
  | inl err =>
      mkX fs1 (x_disp st) others
          (match x_werr st with Some e0 => Some e0 | None => Some err end)
          (x_written st) (x_entries st)
  | inr n =>
      let '(fs2, r2) := updateFileMetadata p zf fs1 in
      mkX fs2 (x_disp st) others
          (match x_werr st, r2 with
           | Some e0, _ => Some e0
           | None, inl err => Some err
           | None, inr _ => None
           end)
          (wrap64 (x_written st + n)) (wrap64 (x_entries st + 1))
  end.

(** After the loop: [wg.Wait()], then phases 2 and 3. *)
Definition finish (e : Extractor) (st : XState) : XState :=
  match x_werr st with
  | Some err => with_disp st (x_fs st) (XDone (Some err)) (x_entries st)
  | None =>
    let '(fs2, n2, r2) := phase2 e (ex_files e) (x_fs st) (x_entries st) in
    match r2 with
    | Some err => with_disp st fs2 (XDone (Some err)) n2
    | None =>
      match phase3 e (ex_files e) fs2 with
      | (fs3, inl err) => with_disp st fs3 (XDone (Some err)) n2
      | (fs3, inr _) => with_disp st fs3 (XDone None) n2
      end
    end
  end.

Inductive step (e : Extractor) : XState -> XState -> Prop :=
| xstep_dispatch st zf rest :
    x_disp st = XRun (zf :: rest) -> step e st (dispatch_one e st zf rest)
| xstep_spawn st p zf rest :
    x_disp st = XSpawn p zf rest -> (length (x_workers st) < ex_concurrency e)%nat ->
    step e st (mkX (x_fs st) (XRun rest) (x_workers st ++ [(p, zf)]) (x_werr st)
                   (x_written st) (x_entries st))
| xstep_work st w1 p zf w2 :
    x_workers st = w1 ++ (p, zf) :: w2 -> step e st (work e st p zf (w1 ++ w2))
| xstep_finish st :
    x_disp st = XRun [] -> x_workers st = [] -> step e st (finish e st).

Definition init (e : Extractor) (fs : FS) : XState :=
  mkX fs (XRun (ex_files e)) [] None 0 0.

Definition terminal (st : XState) : Prop :=
  (exists r, x_disp st = XDone r) /\ x_workers st = [].

(** [Extract]'s return value, after the deferred [wg.Wait()]. *)
Definition result (st : XState) : option error :=
  match x_werr st with
  | Some err => Some err
  | None => match x_disp st with XDone r => r | _ => None end
  end.

Definition runs (e : Extractor) (fs : FS) (st : XState) : Prop :=
  rtc (step e) (init e fs) st.

(** An executable scheduler. *)
Inductive choice := XCDispatch | XCSpawn | XCWork (i : nat) | XCFinish.

Definition run_one (e : Extractor) (c : choice) (st : XState) : option XState :=
  match c, x_disp st with
  | XCDispatch, XRun (zf :: rest) => Some (dispatch_one e st zf rest)
  | XCSpawn, XSpawn p zf rest =>
      if (length (x_workers st) <? ex_concurrency e)%nat
      then Some (mkX (x_fs st) (XRun rest) (x_workers st ++ [(p, zf)]) (x_werr st)
                     (x_written st) (x_entries st))
      else None
  | XCWork i, _ =>
      match x_workers st !! i with
      | Some (p, zf) => Some (work e st p zf (take i (x_workers st) ++ drop (S i) (x_workers st)))
      | None => None
      end
  | XCFinish, XRun [] =>
      match x_workers st with [] => Some (finish e st) | _ => None end
  | _, _ => None
  end.

Fixpoint run (e : Extractor) (cs : list choice) (st : XState) : option XState :=
  match cs with
  | [] => Some st
  | c :: cs => match run_one e c st with Some st' => run e cs st' | None => None end
  end.
End Extractor.

(** ** Invariants of the archiver's runs *)
Module ArchiverInv.
Import Zip Archiver.

(** An entry [e] written for key [k] comes from the loop's switch on the
    file [files !! k], whose path passed the chroot check, with the
    context as [c] says. *)
Definition emitted (a : Archiver) (files : gmap string FileInfo) (tmp c : bool)
    (k : string) (e : ZipEntry) : Prop :=
  exists fi r, files !! k = Some fi /\ Mode.is_irregular (fi_mode fi) = false /\
    Paths.rel (ar_chroot a) (Paths.abs (ar_cwd a) k) = Some r /\
    Paths.archive_inside (ar_chroot a) (Paths.abs (ar_cwd a) k) = true /\
    em_entry (item_emit a tmp c fi (file_header a fi r)) = Some e.

(** A worker's job: a regular file of the input, its header as the loop
    left it; workers exist only with the pool. *)
Definition job_ok (a : Archiver) (files : gmap string FileInfo) (pl : bool) (j : Job) : Prop :=
  pl = true /\ exists r, files !! j_key j = Some (j_fi j) /\
    Mode.is_irregular (fi_mode (j_fi j)) = false /\
    Paths.rel (ar_chroot a) (Paths.abs (ar_cwd a) (j_key j)) = Some r /\
    Paths.archive_inside (ar_chroot a) (Paths.abs (ar_cwd a) (j_key j)) = true /\
    Mode.is_symlink (fi_mode (j_fi j)) = false /\ Mode.is_dir (fi_mode (j_fi j)) = false /\
    j_hdr j = file_header a (j_fi j) r.

(** Every entry written came from [emitted], with a pool buffer exactly
    when the pool exists (a directory or symlink does not use it), and a
    cancelled context is remembered in [a_werr]. *)
Definition inv (a : Archiver) (files : gmap string FileInfo) (pl : bool) (st : AState) : Prop :=
  Forall (fun ke => exists c, emitted a files pl c ke.1 ke.2 /\
                              (c = true -> a_werr st <> None)) (a_out st) /\
  Forall (fun jw => job_ok a files pl jw.1) (a_workers st).
(** Without the pool there are no workers, and the keys of the entries
    written so far are a sublist of the names the loop went through. *)
Definition ordered (files : gmap string FileInfo) (st : AState) : Prop :=
  a_workers st = [] /\
  match a_disp st with
  | DRun todo => exists ks, names files = ks ++ todo /\ map fst (a_out st) `sublist_of` ks
  | DDone _ => map fst (a_out st) `sublist_of` names files
  end.
End ArchiverInv.

(** ** Invariants of the extractor's runs *)
Module ExtractorInv.
Import FS Extractor.

(** Two file systems with the same names and the same kind of object at
    each: path resolution cannot tell them apart. *)
Definition same_shape (fs fs' : FS) : Prop :=
  forall l, option_map nd_kind (fs !! l) = option_map nd_kind (fs' !! l).

Definition mtime_at (fs : FS) (l : list string) : option Z := option_map nd_mtime (fs !! l).

(** [Extract] has returned nil only after phase 3 succeeded, with no
    worker left. *)
Definition xinv (e : Extractor) (st : XState) : Prop :=
  x_disp st = XDone None ->
  x_workers st = [] /\ exists fs2, phase3 e (ex_files e) fs2 = (x_fs st, inr tt).
End ExtractorInv.

(** ** Concrete inputs *)
Module Scenarios.
Import Zip Archiver.
Local Open Scope string_scope.

Definition t0 : Time := mkTime 2020 2 1 6 0 0.
Definition hello : list byte := list_byte_of_string "hello".

(** The compressors of [NewArchiver]: only Deflate is registered. *)
Definition deflate_only (c : Compressor) : Z -> option Compressor :=
  fun m => if (m =? Deflate)%Z then Some c else None.

Definition dir_info : FileInfo := mkFI 4096 (Mode.ModeDir + 493) t0 None [] "".
Definition file_info (data : list byte) : FileInfo :=
  mkFI (FilePool.zlen data) 420 t0 None data "".

(** The spec's example: the directory "a" and "a/b.txt" (0644, "hello"),
    relative to the working directory, which is the chroot; concurrency
    4; [c] is the Deflate compressor. *)
Definition ex_archiver (c : Compressor) : Archiver := mkAr "/c" "/c" Deflate 4 (deflate_only c).
Definition ex_files : gmap string FileInfo :=
  <[ "a" := dir_info ]> (<[ "a/b.txt" := file_info hello ]> ∅).
Definition ex_job (c : Compressor) : Job :=
  mkJob "a/b.txt" (file_info hello) (file_header (ex_archiver c) (file_info hello) "a/b.txt").

(** The states a run of the example goes through. *)
Definition ex_s0 c := init (ex_archiver c) ex_files 0 0.
Definition ex_s1 c := dispatch_one (ex_archiver c) ex_files true (ex_s0 c) "a" ["a/b.txt"].
Definition ex_s2 c := dispatch_one (ex_archiver c) ex_files true (ex_s1 c) "a/b.txt" [].
Definition ex_s3 c :=
  mkA (a_disp (ex_s2 c)) [(ex_job c, Holding)] (pred (a_free (ex_s2 c))) (a_out (ex_s2 c))
      (a_written (ex_s2 c)) (a_entries (ex_s2 c)) (a_werr (ex_s2 c)).
Definition ex_s4 c := worker_emit (ex_archiver c) (ex_s3 c) (ex_job c) [].
Definition ex_s5 c := set_disp (ex_s4 c) (DDone None).
Definition ex_reach (c : Compressor) (st : AState) : Prop :=
  st = ex_s0 c \/ st = ex_s1 c \/ st = ex_s2 c \/ st = ex_s3 c \/ st = ex_s4 c \/ st = ex_s5 c.

(** Two files, a regular one and a directory after it, with concurrency
    [n]. *)
Definition pair_archiver (n : Z) : Archiver :=
  mkAr "/c" "/c" Deflate n (deflate_only StoredDeflate.compress).
Definition pair_files (data : list byte) : gmap string FileInfo :=
  <[ "a" := file_info data ]> (<[ "b" := dir_info ]> ∅).
Definition single_files : gmap string FileInfo := <[ "a" := file_info hello ]> ∅.

(** A sibling of the chroot: "/tmp/ab/f" with chroot "/tmp/a". *)
Definition sibling_archiver : Archiver :=
  mkAr "/tmp/a" "/" Deflate 4 (deflate_only StoredDeflate.compress).
Definition sibling_files : gmap string FileInfo := <[ "/tmp/ab/f" := file_info [] ]> ∅.

(** A header for a file on the raw path. *)
Definition raw_header : FileHeader :=
  mkHdr ("caf" ++ String (Ascii.ascii_of_nat 195) (String (Ascii.ascii_of_nat 169) ".txt"))
        "" 0 0 0 Deflate t0 0 0 0 0 100 [] 420.
Definition raw_data : list byte := repeat Byte.x61 100.
(** A compressor that shrinks: run-length of a single byte value. *)
Definition rle (l : list byte) : list byte :=
  [StoredDeflate.byte_of_Z (FilePool.zlen l); Byte.x61].
Definition rle_archiver : Archiver := mkAr "/c" "/c" Deflate 4 (deflate_only rle).

(** The state a schedule leads [Archive] to, from no bytes and no
    entries written. *)
Definition final_state (a : Archiver) (files : gmap string FileInfo) (cs : list choice) : AState :=
  match run a files (pooled a files) cs (init a files 0 0) with
  | Some st => st
  | None => init a files 0 0
  end.
Definition no_entry : ZipEntry := mkEntry raw_header [].
Definition out_entry (st : AState) (i : nat) : ZipEntry :=
  snd (nth i (a_out st) ("", no_entry)).
Definition out_summary (st : AState) : list (string * Z * Z * Z) :=
  map (fun ke => (ke.1, h_method (ze_hdr ke.2), h_csize (ze_hdr ke.2), h_usize (ze_hdr ke.2)))
      (a_out st).

Definition overtake_schedule : list choice := [CDispatch; CDispatch; CAcquire 0; CEmit 0; CFinish].
End Scenarios.

Module XScenarios.
Import FS Extractor.
Local Open Scope string_scope.

(** "/" and the chroot "/r", both directories. *)
Definition root_fs : FS :=
  <[ ["r"] := mkNode KDir 493 0 ]> (<[ [] := mkNode KDir 493 0 ]> ∅).

(** The symlink "inner" -> "../", then the symlink "inner/vuln" -> "x". *)
Definition escape_extractor : Extractor :=
  mkEx "/r" "/" 4
    [mkZF "inner" (Mode.ModeSymlink + 511) 50 (list_byte_of_string "../");
     mkZF "inner/vuln" (Mode.ModeSymlink + 511) 60 (list_byte_of_string "x")] 1000.

(** The directory "d/" twice, with mtimes 100 and 200. *)
Definition dup_dir_extractor : Extractor :=
  mkEx "/r" "/" 4 [mkZF "d/" (Mode.ModeDir + 493) 100 []; mkZF "d/" (Mode.ModeDir + 493) 200 []] 1000.

(** A directory with a file and a symlink in it. *)
Definition tree_extractor : Extractor :=
  mkEx "/r" "/" 4
    [mkZF "d/" (Mode.ModeDir + 493) 100 [];
     mkZF "d/f" 420 300 (list_byte_of_string "hi");
     mkZF "d/l" (Mode.ModeSymlink + 511) 400 (list_byte_of_string "f")] 1000.

(** The state a schedule leads [Extract] to. *)
Definition x_final (e : Extractor) (fs : FS) (cs : list choice) : XState :=
  match run e cs (init e fs) with Some st => st | None => init e fs end.
Definition escape_schedule : list choice := [XCDispatch; XCDispatch; XCFinish].
Definition tree_schedule : list choice :=
  [XCDispatch; XCDispatch; XCSpawn; XCDispatch; XCWork 0; XCFinish].
End XScenarios.

(** ** Shapes used by the proofs *)
Module FilePoolInv.
Import FilePool.
(** The shape every [File] keeps: the prefix buffer is unallocated (and
    nothing written yet) or has exactly [size] bytes, and the overflow file
    is open once more than [size] bytes were written. *)
Definition file_ok (f : File) : Prop :=
  0 <= f_w f /\ 0 <= f_size f /\
  ((f_buf f = [] /\ f_w f = 0) \/ zlen (f_buf f) = f_size f) /\
  (f_size f < f_w f -> f_open f = true).
End FilePoolInv.

Module PathFacts.
Local Open Scope string_scope.

(** The first and last characters of a string. *)
Fixpoint last_char (s : string) : option ascii :=
  match s with
  | EmptyString => None
  | String c EmptyString => Some c
  | String _ s' => last_char s'
  end.

Definition head_char (s : string) : option ascii :=
  match s with EmptyString => None | String c _ => Some c end.

(** An element that can end a name: non-empty, its last byte not "/". *)
Definition good_elem (x : string) : Prop := x <> "" /\ last_char x <> Some "/"%char.

Definition head_ok (cur : string) : Prop :=
  match cur with EmptyString => True | String c _ => c <> "/"%char end.
End PathFacts.

(** * Properties *)

(** ** The schedulers only take steps of the models *)
Module RunSound.
Import Archiver.

Lemma run_one_step a files pooled c st st' :
  run_one a files pooled c st = Some st' -> step a files pooled st st'.
Proof.
  destruct c as [| |i|i]; simpl.
  - destruct (a_disp st) as [[|name rest]|r] eqn:Hd; try discriminate.
    intros [= <-]. now apply step_dispatch.
  - destruct (a_disp st) as [[|name rest]|r] eqn:Hd; try discriminate.
    destruct (a_workers st) eqn:Hw; try discriminate.
    intros [= <-]. now apply step_finish.
  - destruct (a_workers st !! i) as [[j [|]]|] eqn:Hi; try discriminate.
    destruct (0 <? a_free st)%nat eqn:Hf; try discriminate.
    intros [= <-]. apply Nat.ltb_lt in Hf.
    apply step_acquire; [|exact Hf].
    symmetry. now apply take_drop_middle.
  - destruct (a_workers st !! i) as [[j [|]]|] eqn:Hi; try discriminate.
    intros [= <-]. apply step_emit.
    symmetry. now apply take_drop_middle.
Qed.

Lemma run_rtc a files pooled cs st st' :
  run a files pooled cs st = Some st' -> rtc (step a files pooled) st st'.
Proof.
  revert st. induction cs as [|c cs IH]; simpl; intros st H.
  - injection H as <-. apply rtc_refl.
  - destruct (run_one a files pooled c st) as [s1|] eqn:H1; [|discriminate].
    eapply rtc_l; [apply (run_one_step _ _ _ _ _ _ H1) | now apply IH].
Qed.
End RunSound.

Module XRunSound.
Import Extractor.

Lemma xrun_one_step e c st st' :
  run_one e c st = Some st' -> step e st st'.
Proof.
  unfold run_one.
  destruct c as [| |i|]; destruct (x_disp st) as [[|zf rest]|p zf rest|r] eqn:Hd;
    try discriminate;
    try (destruct (x_workers st !! i) as [[p' zf']|] eqn:Hi; [|discriminate];
         intros [= <-]; apply xstep_work; symmetry; now apply take_drop_middle).
  - intros [= <-]. now apply xstep_dispatch.
  - destruct (length (x_workers st) <? ex_concurrency e)%nat eqn:Hl; [|discriminate].
    intros [= <-]. apply Nat.ltb_lt in Hl. now apply xstep_spawn.
  - destruct (x_workers st) eqn:Hw; [|discriminate].
    intros [= <-]. now apply xstep_finish.
Qed.

Lemma xrun_rtc e cs st st' :
  run e cs st = Some st' -> rtc (step e) st st'.
Proof.
  revert st. induction cs as [|c cs IH]; simpl; intros st H.
  - injection H as <-. apply rtc_refl.
  - destruct (run_one e c st) as [s1|] eqn:H1; [|discriminate].
    eapply rtc_l; [apply (xrun_one_step _ _ _ _ H1) | now apply IH].
Qed.
End XRunSound.

(** ** The counting writer *)
Module CountWriterProps.
Import CountWriter.

(** Claim C6: with the context cancelled, [countWriter.Write] returns the
    context's error with no bytes, leaves the wrapped writer untouched and
    the counter unchanged; otherwise it returns exactly what the wrapped
    [Write] returns and adds the bytes it reports to the (64-bit,
    wrapping) counter. *)
Theorem countWriter_write_spec {W : Type} (uw : list byte -> W -> (Z * option error) * W)
    (e : error) (w : W) (counter : Z) (p : list byte) :
  write uw (Some e) w counter p = ((0, Some e), w, counter) /\
  write uw None w counter p =
    ((fst (fst (uw p w)), snd (fst (uw p w))), snd (uw p w),
     wrap64 (counter + fst (fst (uw p w)))).
Proof.
  split; [reflexivity|].
  simpl. destruct (uw p w) as [[n err] w']. reflexivity.
Qed.
End CountWriterProps.

(** ** The file-pool buffer *)
Module FilePoolProps.
Import FilePool FilePoolInv.


Lemma copy_at_length (dst : list byte) off src :
  0 <= off -> off + zlen src <= zlen dst -> zlen (copy_at dst off src) = zlen dst.
Proof.
  unfold copy_at, zlen. intros H1 H2.
  rewrite !length_app, length_take, length_drop, Nat.min_l by lia. lia.
Qed.

Lemma zlen_nonneg {A} (l : list A) : 0 <= zlen l.
Proof. unfold zlen. lia. Qed.

Lemma write_ok f p :
  file_ok f ->
  file_ok (fst (write f p)) /\
  f_w (fst (write f p)) = f_w f + zlen p /\
  f_open (fst (write f p)) = f_open f || (f_size f <? f_w f + zlen p).
Proof.
  intros (Hw & Hs & Hb & Ho). pose proof (zlen_nonneg p) as Hp0.
  set (buf := if bool_decide (f_buf f = []) && (0 <? f_size f)
              then repeat Byte.x00 (Z.to_nat (f_size f)) else f_buf f).
  assert (Hbuf : zlen buf = f_size f).
  { unfold buf. destruct (bool_decide (f_buf f = [])) eqn:E1; simpl.
    - apply bool_decide_eq_true in E1.
      destruct (0 <? f_size f) eqn:E2.
      + unfold zlen. rewrite repeat_length. lia.
      + apply Z.ltb_ge in E2. rewrite E1. unfold zlen. simpl.
        destruct Hb as [_|Hb]; [lia|]. rewrite E1 in Hb. exact Hb.
    - apply bool_decide_eq_false in E1. destruct Hb as [[Hb _]|Hb]; [congruence|exact Hb]. }
  unfold write. fold buf.
  destruct (f_w f <? zlen buf) eqn:Hlt.
  - apply Z.ltb_lt in Hlt.
    set (n := Z.min (zlen buf - f_w f) (zlen p)).
    assert (Hn : zlen (take (Z.to_nat n) p) = n).
    { unfold n. unfold zlen in *. rewrite length_take. lia. }
    assert (Hd : zlen (drop (Z.to_nat n) p) = zlen p - n).
    { unfold n. unfold zlen in *. rewrite length_drop. lia. }
    assert (Hc : zlen (copy_at buf (f_w f) (take (Z.to_nat n) p)) = f_size f).
    { rewrite copy_at_length; [exact Hbuf|lia|]. rewrite Hn. unfold n. lia. }
    destruct (bool_decide (drop (Z.to_nat n) p = [])) eqn:Hp; simpl.
    + apply bool_decide_eq_true in Hp. rewrite Hp in Hd. change (zlen (@nil byte)) with 0 in Hd.
      assert (Hz : zlen p = n) by lia.
      assert (f_w f + zlen p <= f_size f) by (unfold n in Hz; lia).
      refine (conj (conj _ (conj _ (conj _ _))) (conj _ _)); cbn [f_w f_size f_buf f_open].
      * lia.
      * lia.
      * right. exact Hc.
      * intros H'. lia.
      * lia.
      * destruct (f_open f); simpl; [reflexivity|]. symmetry. apply Z.ltb_ge. lia.
    + apply bool_decide_eq_false in Hp.
      assert (Hpos : 0 < zlen (drop (Z.to_nat n) p)).
      { destruct (drop (Z.to_nat n) p); [congruence|]. unfold zlen. simpl. lia. }
      assert (Hn2 : n = zlen buf - f_w f) by (unfold n in *; lia).
      refine (conj (conj _ (conj _ (conj _ _))) (conj _ _)); cbn [f_w f_size f_buf f_open].
      * lia.
      * lia.
      * right. exact Hc.
      * intros _. reflexivity.
      * lia.
      * symmetry. apply orb_true_iff. right. apply Z.ltb_lt. lia.
  - apply Z.ltb_ge in Hlt.
    destruct (bool_decide (p = [])) eqn:Hp; simpl.
    + apply bool_decide_eq_true in Hp. subst p. change (zlen (@nil byte)) with 0.
      refine (conj (conj _ (conj _ (conj _ _))) (conj _ _)); cbn [f_w f_size f_buf f_open].
      * lia.
      * lia.
      * destruct Hb as [[Hb1 Hb2]|Hb]; [|right; lia].
        destruct (0 <? f_size f) eqn:E.
        -- right. apply Z.ltb_lt in E. lia.
        -- left. unfold buf. rewrite andb_false_r. split; [exact Hb1|exact Hb2].
      * exact Ho.
      * lia.
      * rewrite Z.add_0_r.
        destruct (f_size f <? f_w f) eqn:E; [apply Z.ltb_lt in E; rewrite Ho by exact E; reflexivity|].
        rewrite orb_false_r. reflexivity.
    + apply bool_decide_eq_false in Hp.
      assert (Hpos : 0 < zlen p).
      { destruct p; [congruence|]. unfold zlen. simpl. lia. }
      refine (conj (conj _ (conj _ (conj _ _))) (conj _ _)); cbn [f_w f_size f_buf f_open].
      * lia.
      * lia.
      * right. exact Hbuf.
      * intros _. reflexivity.
      * lia.
      * symmetry. apply orb_true_iff. right. apply Z.ltb_lt. lia.
Qed.

Lemma writes_ok f ps :
  file_ok f ->
  file_ok (writes f ps) /\
  f_w (writes f ps) = f_w f + total ps /\
  f_open (writes f ps) = f_open f || (f_size f <? f_w f + total ps).
Proof.
  revert f. induction ps as [|p ps IH]; intros f Hf; simpl.
  - rewrite Z.add_0_r. split; [exact Hf|split; [reflexivity|]].
    destruct Hf as (_ & _ & _ & Ho).
    destruct (f_size f <? f_w f) eqn:E; [apply Z.ltb_lt in E; rewrite Ho by exact E; reflexivity|].
    now rewrite orb_false_r.
  - destruct (write_ok f p Hf) as (Hok & Hw & Ho).
    destruct (IH _ Hok) as (Hok' & Hw' & Ho').
    assert (Hsz : f_size (fst (write f p)) = f_size f).
    { unfold write. destruct (f_w f <? _); destruct (bool_decide _); reflexivity. }
    split; [exact Hok'|split].
    + rewrite Hw', Hw. lia.
    + rewrite Ho', Ho, Hsz, Hw, <- orb_assoc. f_equal.
      destruct Hf as (Hw0 & _ & _ & _).
      assert (0 <= total ps) by (clear; induction ps; simpl; unfold zlen in *; lia).
      destruct (Z.ltb_spec (f_size f) (f_w f + zlen p));
        destruct (Z.ltb_spec (f_size f) (f_w f + zlen p + total ps));
        destruct (Z.ltb_spec (f_size f) (f_w f + (zlen p + total ps)));
        simpl; try reflexivity; lia.
Qed.

(** Claim C7 (corrected): from a [File] with nothing written since it was
    created or last [reset] (and whose prefix buffer is unallocated or of
    the pool's buffer size [B >= 0]), after writes totalling [S] bytes the
    overflow file <dir>/fastzip_<ii> exists iff it already existed or
    [S > B]; for a new [File] (it does not exist yet) that is iff [S > B]. *)
Theorem overflow_file_exists_iff f ps :
  0 <= f_size f -> f_w f = 0 -> (f_buf f = [] \/ zlen (f_buf f) = f_size f) ->
  f_open (writes f ps) = f_open f || (f_size f <? total ps).
Proof.
  intros Hs Hw Hb.
  assert (Hok : file_ok f).
  { unfold file_ok. rewrite Hw. repeat split; try lia.
    - destruct Hb as [Hb|Hb]; [left; split; [exact Hb|reflexivity]|right; exact Hb]. }
  destruct (writes_ok f ps Hok) as (_ & _ & Ho).
  rewrite Ho, Hw. reflexivity.
Qed.

(** Witness of C7: a new [File] with a 4-byte prefix and 5 bytes written. *)
Lemma overflow_file_exists_iff_witness :
  (0 <= f_size (newFile "/d" 0 4) /\ f_w (newFile "/d" 0 4) = 0 /\
   (f_buf (newFile "/d" 0 4) = [] \/ zlen (f_buf (newFile "/d" 0 4)) = f_size (newFile "/d" 0 4))) /\
  f_open (writes (newFile "/d" 0 4) [[Byte.x61; Byte.x62]; [Byte.x63; Byte.x64; Byte.x65]]) =
    f_open (newFile "/d" 0 4) || (f_size (newFile "/d" 0 4) <? total [[Byte.x61; Byte.x62]; [Byte.x63; Byte.x64; Byte.x65]]).
Proof.
  split.
  - simpl. split; [lia|split; [reflexivity|left; reflexivity]].
  - apply overflow_file_exists_iff; simpl; [lia|reflexivity|left; reflexivity].
Defined.

(** Claim C7, counterexample: with a one-byte prefix, a two-byte write
    creates the overflow file; after [reset] nothing is written ([S = 0 <=
    B = 1]), yet the file still exists (truncated, not removed). *)
Lemma overflow_file_survives_reset :
  let f := reset (writes (newFile "/d" 0 1) [[Byte.x00; Byte.x00]]) in
  f_open (writes f []) = true /\ total [] <= f_size f /\ f_w f = 0.
Proof. vm_compute. repeat split; discriminate. Qed.
End FilePoolProps.

(** ** Names produced by [filepath.Rel] never end in a separator *)
Module PathProps.
Import Paths PathFacts.
Local Open Scope string_scope.

Lemma head_rev_app s1 s2 :
  head_char (String.rev_app s1 s2) =
    match s1 with EmptyString => head_char s2 | _ => last_char s1 end.
Proof.
  revert s2. induction s1 as [|a s1 IH]; intros s2; simpl; [reflexivity|].
  rewrite IH. destruct s1; reflexivity.
Qed.

Lemma last_rev_app s1 s2 :
  last_char (String.rev_app s1 s2) =
    match s2 with EmptyString => head_char s1 | _ => last_char s2 end.
Proof.
  revert s2. induction s1 as [|a s1 IH]; intros s2; simpl.
  - destruct s2; reflexivity.
  - rewrite IH. destruct s2; reflexivity.
Qed.

Lemma ends_with_slash_last s :
  Zip.ends_with_slash s = match last_char s with Some "/"%char => true | _ => false end.
Proof.
  unfold Zip.ends_with_slash, String.rev.
  assert (Hh : forall t, match t with String "/"%char _ => true | _ => false end =
                         match head_char t with Some "/"%char => true | _ => false end)
    by (intros [|c t]; reflexivity).
  rewrite Hh, head_rev_app. destruct s; reflexivity.
Qed.

Lemma last_char_app s1 s2 :
  last_char (s1 ++ s2) = match s2 with EmptyString => last_char s1 | _ => last_char s2 end.
Proof.
  induction s1 as [|a s1 IH]; simpl.
  - destruct s2; reflexivity.
  - rewrite IH. destruct s1, s2; reflexivity.
Qed.

Lemma split_go_last cur s :
  head_ok cur -> Forall (fun x => last_char x <> Some "/"%char) (split_go cur s).
Proof.
  revert cur. induction s as [|c s IH]; intros cur Hc; simpl.
  - constructor; [|constructor]. unfold String.rev. rewrite last_rev_app. simpl.
    destruct cur; simpl in *; [discriminate|]. intros [= ->]. apply Hc. reflexivity.
  - destruct (Ascii.eqb c sep) eqn:E.
    + constructor; [|apply IH; exact I].
      unfold String.rev. rewrite last_rev_app. simpl.
      destruct cur; simpl in *; [discriminate|]. intros [= ->]. apply Hc. reflexivity.
    + apply IH. simpl. intros ->. discriminate.
Qed.

Lemma clean_comps_good rooted cs :
  Forall (fun x => last_char x <> Some "/"%char) cs -> Forall good_elem (clean_comps rooted cs).
Proof.
  intros Hcs. unfold clean_comps. apply Forall_rev.
  assert (Hgo : forall st, Forall good_elem st ->
                Forall good_elem (fold_left (clean_step rooted) cs st)).
  { induction Hcs as [|c cs Hc Hcs IH]; intros st Hst; simpl; [exact Hst|].
    apply IH. unfold clean_step.
    destruct (String.eqb c "" || String.eqb c ".") eqn:E1; [exact Hst|].
    apply orb_false_iff in E1 as [E1 _].
    destruct (String.eqb c "..") eqn:E2.
    - apply String.eqb_eq in E2. subst c.
      destruct st as [|d st'].
      + destruct rooted; [constructor|].
        constructor; [split; [discriminate|simpl; discriminate]|constructor].
      + destruct (String.eqb d ".."); [|inversion Hst; assumption].
        constructor; [split; [discriminate|simpl; discriminate]|exact Hst].
    - constructor; [|exact Hst]. split; [|exact Hc].
      intros ->. discriminate. }
  apply Hgo. constructor.
Qed.

Lemma join_slash_last l :
  Forall good_elem l -> last_char (join_slash l) <> Some "/"%char.
Proof.
  unfold join_slash. induction 1 as [|x l [Hx1 Hx2] Hl IH]; simpl; [discriminate|].
  destruct l as [|y l']; [exact Hx2|].
  change (String.concat "/" (x :: y :: l')) with (x ++ "/" ++ String.concat "/" (y :: l')).
  rewrite last_char_app.
  inversion Hl as [|? ? [Hy1 _] _]; subst.
  destruct (String.concat "/" (y :: l')) as [|a s] eqn:E.
  - exfalso. destruct y as [|b y]; [congruence|]. destruct l'; simpl in E; discriminate E.
  - exact IH.
Qed.

Lemma strip_common_good b t :
  Forall good_elem t -> Forall good_elem (strip_common b t).2.
Proof.
  revert t. induction b as [|x b IH]; intros t Ht; simpl; [destruct t; exact Ht|].
  destruct t as [|y t']; simpl; [constructor|].
  destruct (String.eqb x y); [apply IH; inversion Ht; assumption|exact Ht].
Qed.

Lemma rel_no_trailing_slash base targ r :
  rel base targ = Some r -> Zip.ends_with_slash r = false.
Proof.
  rewrite ends_with_slash_last. unfold rel.
  destruct (String.eqb (clean base) (clean targ)).
  { intros [= <-]. reflexivity. }
  destruct (negb _); [discriminate|].
  pose proof (clean_comps_good true (split_path (clean targ))
                (split_go_last "" (clean targ) I)) as Ht.
  pose proof (strip_common_good (clean_comps true (split_path (clean base))) _ Ht) as Hs.
  destruct (strip_common _ _) as [bl tl]. simpl in Hs.
  assert (Hlast : forall l, Forall good_elem l -> join_slash l = r ->
                  match last_char r with Some "/"%char => true | _ => false end = false).
  { intros l Hl <-. pose proof (join_slash_last l Hl) as H.
    destruct (last_char (join_slash l)) as [c|]; [|reflexivity].
    destruct (Ascii.eqb c "/"%char) eqn:E.
    - apply Ascii.eqb_eq in E. subst. congruence.
    - destruct c as [[] [] [] [] [] [] [] []]; try reflexivity; discriminate. }
  destruct bl as [|x bl'].
  - intros [= <-]. apply (Hlast tl Hs eq_refl).
  - destruct (String.eqb x ".."); [discriminate|].
    intros [= <-]. apply (Hlast (repeat ".." (length (x :: bl')) ++ tl)%list); [|reflexivity].
    apply Forall_app; split; [|exact Hs].
    apply Forall_forall. intros y Hy. apply list_elem_of_In, repeat_spec in Hy as ->.
    split; [discriminate|simpl; discriminate].
Qed.
End PathProps.

(** ** The archiver *)
Module ArchiverProps.
Import Zip Archiver.

Ltac disp_close :=
  first [ (left; reflexivity) | (right; reflexivity)
        | (destruct (em_err _); [right; eexists; reflexivity|left; reflexivity]) ].

Ltac disp_stop :=
  left; eexists; split; [reflexivity| first [left; reflexivity | right; eexists; reflexivity]].

Lemma file_header_mode a fi r : h_mode (file_header a fi r) = fi_mode fi.
Proof.
  unfold file_header. destruct (_ || _); [reflexivity|].
  destruct (0 <? _); reflexivity.
Qed.

Lemma file_header_special a fi r :
  Mode.is_symlink (fi_mode fi) || Mode.is_dir (fi_mode fi) = true ->
  file_header a fi r = fileInfoHeader r fi.
Proof. unfold file_header. simpl. intros ->. reflexivity. Qed.

(** What one iteration of the loop does: nothing but move on or stop; emit
    an entry under the mutex; or hand a regular file to a worker. *)
Lemma dispatch_cases a files pl st name rest :
  (exists d, dispatch_one a files pl st name rest = set_disp st d /\
             (d = DRun rest \/ exists r, d = DDone r)) \/
  (exists fi r d, files !! name = Some fi /\ Mode.is_irregular (fi_mode fi) = false /\
     Paths.rel (ar_chroot a) (Paths.abs (ar_cwd a) name) = Some r /\
     Paths.archive_inside (ar_chroot a) (Paths.abs (ar_cwd a) name) = true /\
     (pl = false \/ Mode.is_symlink (fi_mode fi) || Mode.is_dir (fi_mode fi) = true) /\
     dispatch_one a files pl st name rest =
       set_disp (record st name (item_emit a false false fi (file_header a fi r))) d /\
     (d = DRun rest \/ exists r, d = DDone r)) \/
  (exists fi r, pl = true /\ files !! name = Some fi /\ Mode.is_irregular (fi_mode fi) = false /\
     Paths.rel (ar_chroot a) (Paths.abs (ar_cwd a) name) = Some r /\
     Paths.archive_inside (ar_chroot a) (Paths.abs (ar_cwd a) name) = true /\
     Mode.is_symlink (fi_mode fi) = false /\ Mode.is_dir (fi_mode fi) = false /\
     dispatch_one a files pl st name rest =
       mkA (DRun rest) (a_workers st ++ [(mkJob name fi (file_header a fi r), Waiting)])
           (a_free st) (a_out st) (a_written st) (a_entries st) (a_werr st)).
Proof.
  unfold dispatch_one.
  destruct (files !! name) as [fi|] eqn:Hf; [|disp_stop].
  destruct (Mode.is_irregular (fi_mode fi)) eqn:Hirr; [disp_stop|].
  destruct (Paths.archive_inside (ar_chroot a) (Paths.abs (ar_cwd a) name)) eqn:Hin;
    simpl negb; cbv iota; [|disp_stop].
  destruct (Paths.rel (ar_chroot a) (Paths.abs (ar_cwd a) name)) as [r|] eqn:Hr; [|disp_stop].
  destruct (cancelled st); [disp_stop|].
  change (h_mode (fileInfoHeader r fi)) with (fi_mode fi).
  destruct (Mode.is_symlink (fi_mode fi)) eqn:Hs; simpl.
  { right; left. eexists fi, r, _.
    assert (E : item_emit a false false fi (file_header a fi r) =
                createSymlink a fi (fileInfoHeader r fi)).
    { unfold item_emit. rewrite file_header_mode, Hs, file_header_special; [reflexivity|].
      rewrite Hs. reflexivity. }
    rewrite E, Hs.
    repeat split; try assumption; disp_close. }
  destruct (Mode.is_dir (fi_mode fi)) eqn:Hd; simpl.
  { right; left. eexists fi, r, _.
    assert (E : item_emit a false false fi (file_header a fi r) =
                createDirectory a fi (fileInfoHeader r fi)).
    { unfold item_emit. rewrite file_header_mode, Hs, Hd, file_header_special; [reflexivity|].
      rewrite Hs, Hd. reflexivity. }
    rewrite E, Hs, Hd.
    repeat split; try assumption; disp_close. }
  assert (Eh : file_header a fi r =
               if 0 <? h_usize (fileInfoHeader r fi)
               then set_method (fileInfoHeader r fi) (ar_method a) else fileInfoHeader r fi).
  { unfold file_header. change (h_mode (fileInfoHeader r fi)) with (fi_mode fi).
    rewrite Hs, Hd. reflexivity. }
  destruct pl.
  - right; right. exists fi, r. rewrite Eh. repeat split; try assumption.
  - right; left. eexists fi, r, _.
    assert (E : item_emit a false false fi (file_header a fi r) =
                compressFile a false fi (file_header a fi r) (fi_contents fi) false).
    { unfold item_emit. rewrite file_header_mode, Hs, Hd. reflexivity. }
    rewrite E, Eh.
    repeat split; try assumption; disp_close.
Qed.

Lemma item_emit_special a t1 c1 t2 c2 fi h :
  Mode.is_symlink (h_mode h) || Mode.is_dir (h_mode h) = true ->
  item_emit a t1 c1 fi h = item_emit a t2 c2 fi h.
Proof.
  unfold item_emit. destruct (Mode.is_symlink (h_mode h)); [reflexivity|].
  simpl. intros ->. reflexivity.
Qed.

Lemma werr_step a files pl st st' :
  step a files pl st st' -> a_werr st <> None -> a_werr st' <> None.
Proof.
  intros Hs Hw. destruct Hs as [st name rest Hd|st Hd Hw'|st w1 j w2 Hw' Hf|st w1 j w2 Hw'].
  - destruct (dispatch_cases a files pl st name rest)
      as [(d & -> & _)|[(fi & r & d & _ & _ & _ & _ & _ & -> & _)|(fi & r & _ & _ & _ & _ & _ & _ & _ & ->)]];
      exact Hw.
  - exact Hw.
  - exact Hw.
  - unfold worker_emit, record. simpl. destruct (a_werr st); [discriminate|congruence].
Qed.

Lemma rtc_werr a files pl st st' :
  rtc (step a files pl) st st' -> a_werr st <> None -> a_werr st' <> None.
Proof.
  induction 1 as [|x y z Hxy _ IH]; [tauto|]. intros H. apply IH. exact (werr_step _ _ _ _ _ Hxy H).
Qed.

Lemma inv_mono a files pl st st' :
  a_out st' = a_out st -> a_workers st' = a_workers st ->
  (a_werr st <> None -> a_werr st' <> None) ->
  ArchiverInv.inv a files pl st -> ArchiverInv.inv a files pl st'.
Proof.
  intros Ho Hw Hm [Hout Hj]. split; [rewrite Ho|rewrite Hw; exact Hj].
  eapply Forall_impl; [exact Hout|]. intros ke (c & He & Hc). exists c. split; [exact He|].
  intros Ht. apply Hm, Hc, Ht.
Qed.

Lemma inv_step a files pl st st' :
  step a files pl st st' -> ArchiverInv.inv a files pl st -> ArchiverInv.inv a files pl st'.
Proof.
  intros Hs Hinv. pose proof (werr_step _ _ _ _ _ Hs) as Hm.
  destruct Hs as [st name rest Hd|st Hd Hw'|st w1 j w2 Hw' Hf|st w1 j w2 Hw'].
  - destruct (dispatch_cases a files pl st name rest)
      as [(d & Heq & _)|[(fi & r & d & Hf & Hirr & Hr & Hin & Hsp & Heq & _)|
                         (fi & r & Hpl & Hf & Hirr & Hr & Hin & Hs & Hdir & Heq)]];
      rewrite Heq in Hm |- *.
    + apply (inv_mono a files pl st); [reflexivity|reflexivity| |exact Hinv]. exact Hm.
    + destruct Hinv as [Hout Hj]. split; [|exact Hj].
      cbn [set_disp record a_out]. apply Forall_app; split; [exact Hout|].
      destruct (em_entry (item_emit a false false fi (file_header a fi r))) as [e|] eqn:He;
        [|constructor].
      constructor; [|constructor]. exists false. split; [|discriminate].
      exists fi, r. repeat split; try assumption. simpl. rewrite <- He.
      destruct Hsp as [->|Hsp]; [reflexivity|].
      f_equal. apply item_emit_special. rewrite file_header_mode. exact Hsp.
    + destruct Hinv as [Hout Hj]. split; [exact Hout|].
      cbn [a_workers]. apply Forall_app; split; [exact Hj|].
      constructor; [|constructor]. split; [exact Hpl|]. exists r. simpl.
      repeat split; assumption.
  - apply (inv_mono a files pl st); [reflexivity|reflexivity| |exact Hinv]. exact Hm.
  - destruct Hinv as [Hout Hj]. split; [exact Hout|]. cbn [a_workers].
    rewrite Hw' in Hj. apply Forall_app in Hj as [Hj1 Hj2]. inversion Hj2; subst.
    apply Forall_app; split; [exact Hj1|]. constructor; assumption.
  - destruct Hinv as [Hout Hj]. rewrite Hw' in Hj.
    apply Forall_app in Hj as [Hj1 Hj2]. inversion Hj2 as [|? ? Hjob Hj3]; subst.
    split.
    + cbn [worker_emit record a_out].
      apply Forall_app; split.
      * eapply Forall_impl; [exact Hout|]. intros ke (c & He & Hc). exists c.
        split; [exact He|]. intros Ht. apply Hm, Hc, Ht.
      * simpl in Hjob. destruct Hjob as (Hpl & r & Hf & Hirr & Hr & Hin & Hs & Hdir & Hh).
        destruct (em_entry (compressFile a (cancelled st) (j_fi j) (j_hdr j)
                              (fi_contents (j_fi j)) true)) as [e|] eqn:He; [|constructor].
        constructor; [|constructor]. exists (cancelled st). split.
        -- exists (j_fi j), r. repeat split; try assumption. simpl.
           unfold item_emit. rewrite file_header_mode, Hs, Hdir, <- Hh, Hpl. exact He.
        -- cbn [worker_emit record a_werr]. unfold cancelled.
           destruct (a_werr st); [discriminate|discriminate].
    + cbn [worker_emit a_workers]. apply Forall_app; split; assumption.
Qed.

Lemma inv_runs a files pl st0 st :
  ArchiverInv.inv a files pl st0 -> rtc (step a files pl) st0 st -> ArchiverInv.inv a files pl st.
Proof.
  intros H0 Hr. induction Hr as [|x y z Hxy _ IH]; [exact H0|].
  apply IH. exact (inv_step _ _ _ _ _ Hxy H0).
Qed.

Lemma inv_init a files w e : ArchiverInv.inv a files (pooled a files) (init a files w e).
Proof. split; constructor. Qed.

(** *** Field facts of the header transformations *)
Lemma appnote_fields h :
  h_name (appnote_header h) = h_name h /\ h_method (appnote_header h) = h_method h /\
  h_csize (appnote_header h) = h_csize h /\ h_usize (appnote_header h) = h_usize h /\
  h_modified (appnote_header h) = h_modified h.
Proof.
  unfold appnote_header.
  destruct (detectUTF8 (h_name h)), (detectUTF8 (h_comment h)). repeat split.
Qed.

Lemma createHeader_method a fi h p en :
  createHeader a fi h p = Some en ->
  h_method (ze_hdr en) = h_method h \/ h_method (ze_hdr en) = Store.
Proof.
  unfold createHeader, create_header.
  destruct (appnote_fields (add_extra h (unix_extra fi))) as (_ & Hm & _).
  destruct (ends_with_slash _); [intros [= <-]; right; reflexivity|].
  destruct (zw_compressor _ _); [|discriminate].
  intros [= <-]. left. exact Hm.
Qed.

Lemma simple_method a c fi h data en :
  em_entry (compressFileSimple a c fi h data) = Some en ->
  h_method (ze_hdr en) = h_method h \/ h_method (ze_hdr en) = Store.
Proof.
  unfold compressFileSimple. destruct (copy_counted c data) as [[copied n] err].
  destruct (createHeader a fi h copied) as [e|] eqn:He; [|discriminate].
  intros [= <-]. exact (createHeader_method _ _ _ _ _ He).
Qed.

Lemma item_emit_store a t c fi h en :
  h_method h = Store -> em_entry (item_emit a t c fi h) = Some en ->
  h_method (ze_hdr en) = Store.
Proof.
  intros Hm. unfold item_emit.
  destruct (Mode.is_symlink (h_mode h)).
  { unfold createSymlink. destruct (createHeader _ _ _ _) as [e|] eqn:He; [|discriminate].
    intros [= <-]. destruct (createHeader_method _ _ _ _ _ He); congruence. }
  destruct (Mode.is_dir (h_mode h)).
  { unfold createDirectory. destruct (createHeader _ _ _ _) as [e|] eqn:He; [|discriminate].
    intros [= <-]. destruct (createHeader_method _ _ _ _ _ He); congruence. }
  unfold compressFile.
  destruct (if t then ar_compressors a (h_method h) else None) as [comp|].
  2:{ intros He. destruct (simple_method _ _ _ _ _ _ He); congruence. }
  destruct (h_usize _ <? h_csize _).
  { intros He. destruct (simple_method _ _ _ _ _ _ He) as [H|H]; [exact H|exact H]. }
  destruct (copy_counted c (comp (fi_contents fi))) as [[copied n] err].
  intros [= <-]. unfold createHeaderRaw, create_raw. simpl.
  destruct (appnote_fields (set_crc (set_csize h (FilePool.zlen (comp (fi_contents fi))))
                                    (crc32 (fi_contents fi)))) as (_ & Hm' & _).
  rewrite Hm'. exact Hm.
Qed.

(** Claim C10: the loop gives a regular file the configured method only
    when its uncompressed size is positive; and in every run of [Archive],
    every entry written for a file of size zero has method Store (0),
    whatever method the archiver is configured with. *)
Theorem zero_size_entries_stored a files w e st :
  runs a files w e st ->
  (forall fi r, Mode.is_symlink (fi_mode fi) = false -> Mode.is_dir (fi_mode fi) = false ->
     h_method (file_header a fi r) = if 0 <? fi_size fi mod 2 ^ 64 then ar_method a else Store) /\
  (forall k en fi, In (k, en) (a_out st) -> files !! k = Some fi -> fi_size fi = 0 ->
     h_method (ze_hdr en) = Store).
Proof.
  intros Hr. split.
  { intros fi r Hs Hd. unfold file_header.
    change (h_mode (fileInfoHeader r fi)) with (fi_mode fi). rewrite Hs, Hd. simpl.
    destruct (0 <? fi_size fi mod 2 ^ 64); reflexivity. }
  intros k en fi Hin Hf Hz.
  destruct (inv_runs _ _ _ _ _ (inv_init a files w e) Hr) as [Hout _].
  rewrite Forall_forall in Hout.
  destruct (Hout (k, en) (proj2 (list_elem_of_In _ _) Hin))
    as (c & (fi' & r & Hf' & _ & _ & _ & He) & _).
  simpl in Hf', He. rewrite Hf in Hf'. injection Hf' as <-.
  refine (item_emit_store _ _ _ _ _ _ _ He). unfold file_header.
  destruct (_ || _); [reflexivity|]. cbn [fileInfoHeader h_usize]. rewrite Hz. reflexivity.
Qed.

(** *** Order of the entries *)
Lemma ordered_step a files st st' :
  step a files false st st' -> ArchiverInv.ordered files st -> ArchiverInv.ordered files st'.
Proof.
  intros Hs [Hw Ho].
  destruct Hs as [st name rest Hd|st Hd Hw'|st w1 j w2 Hw' Hf|st w1 j w2 Hw'].
  - rewrite Hd in Ho. destruct Ho as (ks & Hn & Hsub).
    assert (Hn' : names files = (ks ++ [name]) ++ rest)
      by (rewrite Hn; exact (app_assoc ks [name] rest)).
    destruct (dispatch_cases a files false st name rest)
      as [(d & Heq & Hdd)|[(fi & r & d & _ & _ & _ & _ & _ & Heq & Hdd)|
                           (fi & r & Hpl & _)]]; [| |discriminate Hpl];
      rewrite Heq; split; try exact Hw.
    + cbn [set_disp a_disp a_out].
      destruct Hdd as [->|[r' ->]].
      * exists (ks ++ [name]). split; [exact Hn'|].
        apply sublist_inserts_r. exact Hsub.
      * rewrite Hn. apply sublist_inserts_r. exact Hsub.
    + cbn [set_disp record a_disp a_out].
      assert (Hsub' : map fst (a_out st ++ match em_entry (item_emit a false false fi
                                 (file_header a fi r)) with
                                 | Some e => [(name, e)] | None => [] end)
                      `sublist_of` ks ++ [name]).
      { rewrite map_app. apply sublist_app; [exact Hsub|].
        destruct (em_entry _); simpl; [reflexivity|apply sublist_nil_l]. }
      destruct Hdd as [->|[r' ->]].
      * exists (ks ++ [name]). split; [exact Hn'|exact Hsub'].
      * rewrite Hn'. apply sublist_inserts_r. exact Hsub'.
  - split; [exact Hw|]. cbn [set_disp a_disp a_out]. rewrite Hd in Ho.
    destruct Ho as (ks & Hn & Hsub). rewrite Hn, app_nil_r. exact Hsub.
  - rewrite Hw in Hw'. destruct w1; discriminate.
  - rewrite Hw in Hw'. destruct w1; discriminate.
Qed.

Lemma StronglySorted_sublist {A} (R : relation A) (l1 l2 : list A) :
  l1 `sublist_of` l2 -> StronglySorted R l2 -> StronglySorted R l1.
Proof.
  induction 1 as [|x l1 l2 Hsub IH|x l1 l2 Hsub IH]; intros Hs; [constructor| |].
  - inversion Hs as [|? ? Hs' Hall]; subst. constructor; [exact (IH Hs')|].
    rewrite Forall_forall in Hall |- *. intros y Hy.
    apply Hall. exact (elem_of_sublist _ _ _ Hy Hsub).
  - inversion Hs; subst. apply IH. assumption.
Qed.

Lemma StronglySorted_strict (l : list string) :
  NoDup l -> StronglySorted String.le l ->
  StronglySorted (fun x y => String.le x y /\ x <> y) l.
Proof.
  induction l as [|x l IH]; intros Hnd Hs; [constructor|].
  inversion Hnd as [|? ? Hx Hnd']; inversion Hs as [|? ? Hs' Hall]; subst.
  constructor; [exact (IH Hnd' Hs')|].
  rewrite Forall_forall in Hall |- *. intros y Hy. split; [exact (Hall y Hy)|].
  intros ->. exact (Hx Hy).
Qed.

Lemma names_sorted files :
  StronglySorted (fun x y => String.le x y /\ x <> y) (names files).
Proof.
  apply StronglySorted_strict.
  - unfold names. rewrite merge_sort_Permutation. apply NoDup_fst_map_to_list.
  - unfold names. apply StronglySorted_merge_sort; typeclasses eauto.
Qed.

Lemma ordered_runs a files st0 st :
  ArchiverInv.ordered files st0 -> rtc (step a files false) st0 st ->
  ArchiverInv.ordered files st.
Proof.
  intros H0 Hr. induction Hr as [|x y z Hxy _ IH]; [exact H0|].
  apply IH. exact (ordered_step _ _ _ _ Hxy H0).
Qed.

(** Claim C3 (corrected): when the effective concurrency
    [min(concurrency, len(files))] is at most 1 (so no file pool and no
    workers), in every run of [Archive] the entries are written in strictly
    ascending order of their keys. (With the pool, a directory or symlink
    is written by the loop while earlier regular files are still with
    their workers, as the run below shows.) *)
Theorem entries_sorted_without_pool a files w e st :
  pooled a files = false -> runs a files w e st ->
  StronglySorted (fun x y => String.le x y /\ x <> y) (map fst (a_out st)).
Proof.
  intros Hp Hr. unfold runs in Hr. rewrite Hp in Hr.
  assert (H0 : ArchiverInv.ordered files (init a files w e)).
  { split; [reflexivity|]. exists []. split; [reflexivity|]. apply sublist_nil_l. }
  destruct (ordered_runs _ _ _ _ H0 Hr) as [_ Ho].
  apply (StronglySorted_sublist _ _ (names files)); [|apply names_sorted].
  destruct (a_disp st) as [todo|r].
  - destruct Ho as (ks & Hn & Hsub). rewrite Hn. apply sublist_inserts_r. exact Hsub.
  - exact Ho.
Qed.

(** *** The Store fallback *)
Lemma simple_store a fi h data :
  ar_compressors a Store = None -> ends_with_slash (h_name h) = false -> h_method h = Store ->
  exists en, em_entry (compressFileSimple a false fi h data) = Some en /\
    h_method (ze_hdr en) = Store /\ h_csize (ze_hdr en) = FilePool.zlen data /\
    h_usize (ze_hdr en) = FilePool.zlen data /\ ze_data en = data.
Proof.
  intros Hc Hn Hm. unfold compressFileSimple, copy_counted. simpl.
  unfold createHeader, create_header.
  destruct (appnote_fields (add_extra h (unix_extra fi))) as (Hn' & Hm' & _).
  rewrite Hn', Hm'. simpl. rewrite Hn, Hm. unfold zw_compressor. rewrite Hc. simpl.
  eexists. split; [reflexivity|]. simpl. rewrite Hm'. simpl. rewrite Hm.
  repeat split.
Qed.


(** Claim C4 (amended): when the pool exists and the context is not
    cancelled, every entry written for a regular file whose compressed form
    under the configured method is longer than the uncompressed size has
    method Store, compressed size equal to uncompressed size equal to the
    file's length, and the file's bytes as its data. *)
Theorem inflating_files_stored a files w e st k en fi comp :
  pooled a files = true -> runs a files w e st -> a_werr st = None ->
  In (k, en) (a_out st) -> files !! k = Some fi ->
  Mode.is_symlink (fi_mode fi) = false -> Mode.is_dir (fi_mode fi) = false ->
  ar_compressors a (ar_method a) = Some comp -> ar_compressors a Store = None ->
  fi_size fi mod 2 ^ 64 < FilePool.zlen (comp (fi_contents fi)) ->
  h_method (ze_hdr en) = Store /\ h_csize (ze_hdr en) = h_usize (ze_hdr en) /\
  h_usize (ze_hdr en) = FilePool.zlen (fi_contents fi) /\ ze_data en = fi_contents fi.
Proof.
  intros Hpl Hr Hw Hin Hf Hs Hd Hc Hst Hinf.
  pose proof (inv_init a files w e) as H0. rewrite Hpl in H0.
  unfold runs in Hr. rewrite Hpl in Hr.
  destruct (inv_runs _ _ _ _ _ H0 Hr) as [Hout _].
  rewrite Forall_forall in Hout.
  destruct (Hout (k, en) (proj2 (list_elem_of_In _ _) Hin))
    as (c & (fi' & r & Hf' & _ & Hrel & _ & He) & Hcw).
  simpl in Hf', He, Hrel. rewrite Hf in Hf'. injection Hf' as <-.
  destruct c; [exfalso; exact (Hcw eq_refl Hw)|]. clear Hcw.
  pose proof (PathProps.rel_no_trailing_slash _ _ _ Hrel) as Hn.
  unfold item_emit in He. rewrite file_header_mode, Hs, Hd in He.
  unfold file_header in He. cbn [fileInfoHeader h_mode] in He. rewrite Hs, Hd in He.
  simpl in He.
  assert (Hfin : forall h, h_name h = r -> h_method h = Store ->
            em_entry (compressFileSimple a false fi h (fi_contents fi)) = Some en ->
            h_method (ze_hdr en) = Store /\ h_csize (ze_hdr en) = h_usize (ze_hdr en) /\
            h_usize (ze_hdr en) = FilePool.zlen (fi_contents fi) /\
            ze_data en = fi_contents fi).
  { intros h Hhn Hhm Heh. rewrite <- Hhn in Hn.
    destruct (simple_store a fi h (fi_contents fi) Hst Hn Hhm) as (en' & Hen' & H1 & H2 & H3 & H4).
    rewrite Heh in Hen'. injection Hen' as <-. rewrite H2, H3. auto. }
  destruct (0 <? fi_size fi mod 2 ^ 64) eqn:Hpos.
  - unfold compressFile in He. cbn [set_method h_method] in He. rewrite Hc in He.
    cbn [set_csize set_method fileInfoHeader h_usize h_csize] in He.
    assert (Hlt : (fi_size fi mod 2 ^ 64 <? FilePool.zlen (comp (fi_contents fi))) = true)
      by (apply Z.ltb_lt; exact Hinf).
    rewrite Hlt in He. refine (Hfin _ _ _ He); cbn; [rewrite Hd|]; reflexivity.
  - assert (Hm0 : h_method (fileInfoHeader r fi) = Store) by reflexivity.
    unfold compressFile in He. rewrite Hm0, Hst in He.
    refine (Hfin _ _ _ He); cbn; [rewrite Hd|]; reflexivity.
Qed.

(** *** Concrete runs *)
Lemma final_state_runs a files cs :
  run a files (pooled a files) cs (init a files 0 0) <> None ->
  runs a files 0 0 (Scenarios.final_state a files cs).
Proof.
  unfold Scenarios.final_state.
  destruct (run a files (pooled a files) cs (init a files 0 0)) as [st|] eqn:Hr;
    [intros _ | intros H; exfalso; exact (H eq_refl)].
  exact (RunSound.run_rtc _ _ _ _ _ _ Hr).
Qed.

(** Witness of C3: one worker for the file and the directory. *)
Lemma entries_sorted_without_pool_witness :
  let st := Scenarios.final_state (Scenarios.pair_archiver 1) (Scenarios.pair_files Scenarios.hello)
              [CDispatch; CDispatch; CFinish] in
  pooled (Scenarios.pair_archiver 1) (Scenarios.pair_files Scenarios.hello) = false /\
  runs (Scenarios.pair_archiver 1) (Scenarios.pair_files Scenarios.hello) 0 0 st /\
  StronglySorted (fun x y => String.le x y /\ x <> y) (map fst (a_out st)).
Proof.
  intros st.
  assert (Hp : pooled (Scenarios.pair_archiver 1) (Scenarios.pair_files Scenarios.hello) = false)
    by (vm_compute; reflexivity).
  assert (Hr : runs (Scenarios.pair_archiver 1) (Scenarios.pair_files Scenarios.hello) 0 0 st)
    by (apply final_state_runs; vm_compute; discriminate).
  refine (conj Hp (conj Hr _)).
  exact (entries_sorted_without_pool _ _ _ _ _ Hp Hr).
Defined.

(** Counterexample to C3: with concurrency 2, the worker for "a" waits
    while the loop writes the directory "b" inline, and the run ends with
    no error and the entries in the order "b", "a". *)
Lemma entries_overtake_with_pool :
  let st := Scenarios.final_state (Scenarios.pair_archiver 2) (Scenarios.pair_files Scenarios.hello)
              Scenarios.overtake_schedule in
  ar_concurrency (Scenarios.pair_archiver 2) > 1 /\
  runs (Scenarios.pair_archiver 2) (Scenarios.pair_files Scenarios.hello) 0 0 st /\
  terminal st /\ result st = None /\ map fst (a_out st) = ["b"; "a"]%string.
Proof.
  intros st. split; [vm_compute; reflexivity|]. split.
  { apply final_state_runs. vm_compute. discriminate. }
  split; [|split; vm_compute; reflexivity].
  split; [eexists; vm_compute; reflexivity | vm_compute; reflexivity].
Qed.

(** Witness of C4: with concurrency 2, "hello" would take 10 bytes under
    the stored-block Deflate, so its entry falls back to Store. *)
Lemma inflating_files_stored_witness :
  let a := Scenarios.pair_archiver 2 in
  let files := Scenarios.pair_files Scenarios.hello in
  let st := Scenarios.final_state a files Scenarios.overtake_schedule in
  let en := Scenarios.out_entry st 1 in
  let fi := Scenarios.file_info Scenarios.hello in
  pooled a files = true /\ runs a files 0 0 st /\ a_werr st = None /\
  In ("a"%string, en) (a_out st) /\ files !! "a"%string = Some fi /\
  Mode.is_symlink (fi_mode fi) = false /\ Mode.is_dir (fi_mode fi) = false /\
  ar_compressors a (ar_method a) = Some StoredDeflate.compress /\
  ar_compressors a Store = None /\
  fi_size fi mod 2 ^ 64 < FilePool.zlen (StoredDeflate.compress (fi_contents fi)) /\
  h_method (ze_hdr en) = Store /\ h_csize (ze_hdr en) = h_usize (ze_hdr en) /\
  h_usize (ze_hdr en) = FilePool.zlen (fi_contents fi) /\ ze_data en = fi_contents fi.
Proof.
  intros a files st en fi.
  assert (H1 : pooled a files = true) by (vm_compute; reflexivity).
  assert (H2 : runs a files 0 0 st) by (apply final_state_runs; vm_compute; discriminate).
  assert (H3 : a_werr st = None) by (vm_compute; reflexivity).
  assert (H4 : In ("a"%string, en) (a_out st)) by (vm_compute; right; left; reflexivity).
  assert (H5 : files !! "a"%string = Some fi) by (vm_compute; reflexivity).
  assert (H6 : Mode.is_symlink (fi_mode fi) = false) by (vm_compute; reflexivity).
  assert (H7 : Mode.is_dir (fi_mode fi) = false) by (vm_compute; reflexivity).
  assert (H8 : ar_compressors a (ar_method a) = Some StoredDeflate.compress) by reflexivity.
  assert (H9 : ar_compressors a Store = None) by reflexivity.
  assert (H10 : fi_size fi mod 2 ^ 64 < FilePool.zlen (StoredDeflate.compress (fi_contents fi)))
    by (vm_compute; reflexivity).
  do 10 (split; [assumption|]).
  exact (inflating_files_stored a files 0 0 st "a"%string en fi StoredDeflate.compress
           H1 H2 H3 H4 H5 H6 H7 H8 H9 H10).
Defined.

(** Counterexample to C4: with one worker there is no pool buffer and the
    fallback never runs: the entry for "hello" keeps Deflate with 10
    compressed bytes for 5 uncompressed ones. *)
Lemma inflating_file_kept_without_pool :
  let st := Scenarios.final_state (Scenarios.pair_archiver 1) Scenarios.single_files
              [CDispatch; CFinish] in
  runs (Scenarios.pair_archiver 1) Scenarios.single_files 0 0 st /\ terminal st /\
  result st = None /\ FilePool.zlen (StoredDeflate.compress Scenarios.hello) = 10 /\
  Scenarios.out_summary st = [("a"%string, Deflate, 10, 5)].
Proof.
  intros st. split; [apply final_state_runs; vm_compute; discriminate|].
  split; [split; [eexists; vm_compute; reflexivity | vm_compute; reflexivity]|].
  split; [|split]; vm_compute; reflexivity.
Qed.

(** Witness of C10: an empty file "a" with Deflate configured. *)
Lemma zero_size_entries_stored_witness :
  let a := Scenarios.pair_archiver 2 in
  let files := Scenarios.pair_files [] in
  let st := Scenarios.final_state a files Scenarios.overtake_schedule in
  runs a files 0 0 st /\ ar_method a = Deflate /\
  h_method (ze_hdr (Scenarios.out_entry st 1)) = Store.
Proof.
  intros a files st.
  assert (Hr : runs a files 0 0 st) by (apply final_state_runs; vm_compute; discriminate).
  split; [exact Hr|split; [reflexivity|]].
  apply (proj2 (zero_size_entries_stored a files 0 0 st Hr) "a"%string _
               (Scenarios.file_info [])).
  - vm_compute. right. left. reflexivity.
  - vm_compute. reflexivity.
  - reflexivity.
Defined.

(** *** The chroot check of [Archive] *)
(** Claim C2 (a run of the code against it): "/tmp/ab/f" with chroot
    "/tmp/a" is neither the chroot nor under "/tmp/a/", yet [Archive]
    succeeds and writes it as "../ab/f": the check is [HasPrefix(path,
    chroot)], without the separator. *)
Theorem sibling_of_chroot_archived :
  let a := Scenarios.sibling_archiver in
  let files := Scenarios.sibling_files in
  let st := Scenarios.final_state a files [CDispatch; CFinish] in
  let p := Paths.abs (ar_cwd a) "/tmp/ab/f" in
  p = "/tmp/ab/f"%string /\ String.prefix (ar_chroot a ++ "/") p = false /\
  p <> ar_chroot a /\
  runs a files 0 0 st /\ terminal st /\ result st = None /\
  map (fun ke => (ke.1, h_name (ze_hdr ke.2))) (a_out st) = [("/tmp/ab/f", "../ab/f")]%string.
Proof.
  intros a files st p.
  split; [vm_compute; reflexivity|]. split; [vm_compute; reflexivity|].
  split; [vm_compute; discriminate|].
  split; [apply final_state_runs; vm_compute; discriminate|].
  split; [split; [exists None; vm_compute; reflexivity | vm_compute; reflexivity]|].
  split; vm_compute; reflexivity.
Qed.

(** *** The raw path of [compressFile] *)
Lemma testbit_lor a b n : Z.testbit (Z.lor a b) n = Z.testbit a n || Z.testbit b n.
Proof. apply Z.lor_spec. Qed.

(** Claim C8: when a pool buffer was used and the compressed bytes are no
    longer than the file, the entry is written raw with the header
    prepared per APPNOTE: bit 11 set when the name or comment requires
    UTF-8 and both are valid (else as it was), bit 3 set, both versions
    20, the MS-DOS date and time of the modification time, and the
    extended timestamp among the extra fields. *)
Theorem raw_path_header a c fi h data comp :
  ar_compressors a (h_method h) = Some comp ->
  FilePool.zlen (comp data) <= h_usize h ->
  exists en, em_entry (compressFile a c fi h data true) = Some en /\
    let '(v1, r1) := detectUTF8 (h_name h) in
    let '(v2, r2) := detectUTF8 (h_comment h) in
    Z.testbit (h_flags (ze_hdr en)) 11 = ((r1 || r2) && v1 && v2) || Z.testbit (h_flags h) 11 /\
    Z.testbit (h_flags (ze_hdr en)) 3 = true /\
    h_creator (ze_hdr en) = 20 /\ h_reader (ze_hdr en) = 20 /\
    h_mdate (ze_hdr en) = msdos_date (h_modified h) /\
    h_mtime (ze_hdr en) = msdos_time (h_modified h) /\
    In (XExtTime (h_modified h)) (h_extra (ze_hdr en)).
Proof.
  intros Hc Hle. unfold compressFile. rewrite Hc. cbn [set_csize h_usize h_csize].
  assert (Hlt : (h_usize h <? FilePool.zlen (comp data)) = false) by (apply Z.ltb_ge; exact Hle).
  rewrite Hlt. destruct (copy_counted c (comp data)) as [[copied n] err].
  eexists. split; [reflexivity|]. cbn [em_entry].
  unfold createHeaderRaw, create_raw, add_extra, appnote_header. cbn [ze_hdr].
  cbn [set_crc set_csize h_name h_comment h_flags h_modified].
  destruct (detectUTF8 (h_name h)) as [v1 r1], (detectUTF8 (h_comment h)) as [v2 r2].
  cbn [h_flags h_creator h_reader h_mdate h_mtime h_extra h_modified].
  rewrite !testbit_lor.
  refine (conj _ (conj _ (conj eq_refl (conj eq_refl (conj eq_refl (conj eq_refl _)))))).
  - destruct ((r1 || r2) && v1 && v2); rewrite ?testbit_lor;
      destruct (Z.testbit (h_flags h) 11); reflexivity.
  - rewrite orb_true_r. reflexivity.
  - apply in_or_app. left. apply in_or_app. right. left. reflexivity.
Qed.

(** Witness of C8: the name of [raw_header] has a two-byte UTF-8 character and needs the UTF-8 flag. *)
Lemma raw_path_header_witness :
  ar_compressors Scenarios.rle_archiver (h_method Scenarios.raw_header) = Some Scenarios.rle /\
  FilePool.zlen (Scenarios.rle Scenarios.raw_data) <= h_usize Scenarios.raw_header /\
  detectUTF8 (h_name Scenarios.raw_header) = (true, true) /\
  exists en, em_entry (compressFile Scenarios.rle_archiver false (Scenarios.file_info Scenarios.raw_data)
                          Scenarios.raw_header Scenarios.raw_data true) = Some en /\
    let '(v1, r1) := detectUTF8 (h_name Scenarios.raw_header) in
    let '(v2, r2) := detectUTF8 (h_comment Scenarios.raw_header) in
    Z.testbit (h_flags (ze_hdr en)) 11 =
      ((r1 || r2) && v1 && v2) || Z.testbit (h_flags Scenarios.raw_header) 11 /\
    Z.testbit (h_flags (ze_hdr en)) 3 = true /\
    h_creator (ze_hdr en) = 20 /\ h_reader (ze_hdr en) = 20 /\
    h_mdate (ze_hdr en) = msdos_date (h_modified Scenarios.raw_header) /\
    h_mtime (ze_hdr en) = msdos_time (h_modified Scenarios.raw_header) /\
    In (XExtTime (h_modified Scenarios.raw_header)) (h_extra (ze_hdr en)).
Proof.
  assert (Hc : ar_compressors Scenarios.rle_archiver (h_method Scenarios.raw_header) =
               Some Scenarios.rle) by reflexivity.
  assert (Hle : FilePool.zlen (Scenarios.rle Scenarios.raw_data) <= h_usize Scenarios.raw_header)
    by (vm_compute; discriminate).
  split; [exact Hc|]. split; [exact Hle|]. split; [vm_compute; reflexivity|].
  exact (raw_path_header Scenarios.rle_archiver false (Scenarios.file_info Scenarios.raw_data)
           Scenarios.raw_header Scenarios.raw_data Scenarios.rle Hc Hle).
Defined.

Lemma single_split {A} (x y : A) w1 w2 : [x] = w1 ++ y :: w2 -> w1 = [] /\ y = x /\ w2 = [].
Proof.
  destruct w1 as [|z w1]; simpl; intros H.
  - injection H as -> ->. auto.
  - injection H as _ H. destruct w1; discriminate.
Qed.
Lemma nil_split {A} (y : A) w1 w2 : [] = w1 ++ y :: w2 -> False.
Proof. destruct w1; discriminate. Qed.

Lemma wrap64_small z : 0 <= z < 2 ^ 63 -> wrap64 z = z.
Proof. intros H. unfold wrap64. rewrite Z.mod_small; lia. Qed.

Lemma ex_emit c :
  em_bytes (compressFile (Scenarios.ex_archiver c) false (Scenarios.file_info Scenarios.hello)
              (j_hdr (Scenarios.ex_job c)) Scenarios.hello true) = Z.min 5 (FilePool.zlen (c Scenarios.hello)) /\
  em_err (compressFile (Scenarios.ex_archiver c) false (Scenarios.file_info Scenarios.hello)
              (j_hdr (Scenarios.ex_job c)) Scenarios.hello true) = None.
Proof.
  unfold compressFile.
  change (ar_compressors (Scenarios.ex_archiver c) (h_method (j_hdr (Scenarios.ex_job c)))) with (Some c).
  cbv beta iota.
  change (h_usize (set_csize (j_hdr (Scenarios.ex_job c)) (FilePool.zlen (c Scenarios.hello)))) with 5.
  change (h_csize (set_csize (j_hdr (Scenarios.ex_job c)) (FilePool.zlen (c Scenarios.hello)))) with (FilePool.zlen (c Scenarios.hello)).
  destruct (5 <? FilePool.zlen (c Scenarios.hello)) eqn:E.
  - apply Z.ltb_lt in E. rewrite Z.min_l by lia. split; vm_compute; reflexivity.
  - apply Z.ltb_ge in E. rewrite Z.min_r by lia. unfold copy_counted. cbn [andb]. split; reflexivity.
Qed.


Lemma ex_shapes c :
  (a_disp (Scenarios.ex_s0 c) = DRun ["a"; "a/b.txt"]%string /\ a_workers (Scenarios.ex_s0 c) = []) /\
  (a_disp (Scenarios.ex_s1 c) = DRun ["a/b.txt"%string] /\ a_workers (Scenarios.ex_s1 c) = []) /\
  (a_disp (Scenarios.ex_s2 c) = DRun [] /\
   a_workers (Scenarios.ex_s2 c) = [(Scenarios.ex_job c, Waiting)]) /\
  (a_disp (Scenarios.ex_s3 c) = DRun [] /\
   a_workers (Scenarios.ex_s3 c) = [(Scenarios.ex_job c, Holding)]) /\
  (a_disp (Scenarios.ex_s4 c) = DRun [] /\ a_workers (Scenarios.ex_s4 c) = []) /\
  (a_disp (Scenarios.ex_s5 c) = DDone None /\ a_workers (Scenarios.ex_s5 c) = []).
Proof. repeat split; vm_compute; reflexivity. Qed.

Lemma ex_reach_step c st st' :
  step (Scenarios.ex_archiver c) Scenarios.ex_files true st st' ->
  Scenarios.ex_reach c st -> Scenarios.ex_reach c st'.
Proof.
  unfold Scenarios.ex_reach.
  destruct (ex_shapes c) as ((D0 & W0) & (D1 & W1) & (D2 & W2) & (D3 & W3) & (D4 & W4) & (D5 & W5)).
  intros Hs Hr.
  destruct Hs as [st name rest Hd|st Hd Hw|st w1 j w2 Hw Hf|st w1 j w2 Hw];
    destruct Hr as [-> | [-> | [-> | [-> | [-> | ->]]]]];
    try rewrite ?D0, ?D1, ?D2, ?D3, ?D4, ?D5 in Hd;
    try rewrite ?W0, ?W1, ?W2, ?W3, ?W4, ?W5 in Hw;
    clear D0 D1 D2 D3 D4 D5 W0 W1 W2 W3 W4 W5;
    try discriminate Hd; try discriminate Hw;
    try exact (False_ind _ (nil_split _ _ _ Hw));
    try (destruct (single_split _ _ _ _ Hw) as (-> & Hj & ->); injection Hj;
         intros; subst; try discriminate).
  - injection Hd as <- <-. right. left. reflexivity.
  - injection Hd as <- <-. right. right. left. reflexivity.
  - do 5 right. reflexivity.
  - do 3 right. left. reflexivity.
  - do 4 right. left. reflexivity.
Qed.

Lemma ex_reach_rtc c st :
  rtc (step (Scenarios.ex_archiver c) Scenarios.ex_files true) (Scenarios.ex_s0 c) st ->
  Scenarios.ex_reach c st.
Proof.
  intros Hr. remember (Scenarios.ex_s0 c) as s0 eqn:E.
  assert (H0 : Scenarios.ex_reach c s0) by (left; exact E). clear E.
  induction Hr as [|x y z Hxy _ IH]; [exact H0|].
  apply IH. exact (ex_reach_step _ _ _ Hxy H0).
Qed.

Lemma ex_s3_facts c :
  a_written (Scenarios.ex_s3 c) = 0 /\ a_entries (Scenarios.ex_s3 c) = 1 /\
  a_werr (Scenarios.ex_s3 c) = None /\ cancelled (Scenarios.ex_s3 c) = false /\
  a_disp (Scenarios.ex_s3 c) = DRun [].
Proof. repeat split; vm_compute; reflexivity. Qed.

(** Claim C9 (amended): for the spec's example, whatever bytes the Deflate
    compressor produces for "hello", every run of [Archive] that ends
    returns no error and leaves [Written()] at 2 entries and
    [min(5, len(deflate("hello")))] bytes: the file goes through the
    pool, so its bytes are counted, raw or after the Store fallback. *)
Theorem example_written c st :
  runs (Scenarios.ex_archiver c) Scenarios.ex_files 0 0 st -> terminal st ->
  a_written st = Z.min 5 (FilePool.zlen (c Scenarios.hello)) /\ a_entries st = 2 /\
  result st = None.
Proof.
  intros Hr [[r Hd] Hw]. unfold runs in Hr.
  change (pooled (Scenarios.ex_archiver c) Scenarios.ex_files) with true in Hr.
  change (init (Scenarios.ex_archiver c) Scenarios.ex_files 0 0) with (Scenarios.ex_s0 c) in Hr.
  destruct (ex_shapes c) as ((D0 & _) & (D1 & _) & (D2 & _) & (D3 & _) & (D4 & _) & _).
  destruct (ex_reach_rtc _ _ Hr) as [-> | [-> | [-> | [-> | [-> | ->]]]]];
    try (rewrite ?D0, ?D1, ?D2, ?D3, ?D4 in Hd; discriminate Hd).
  destruct (ex_s3_facts c) as (E1 & E2 & E3 & E4 & E5).
  destruct (ex_emit c) as [B R].
  change (a_written (Scenarios.ex_s5 c)) with
    (wrap64 (a_written (Scenarios.ex_s3 c) +
             em_bytes (compressFile (Scenarios.ex_archiver c) (cancelled (Scenarios.ex_s3 c))
                         (Scenarios.file_info Scenarios.hello) (j_hdr (Scenarios.ex_job c))
                         Scenarios.hello true))).
  change (a_entries (Scenarios.ex_s5 c)) with
    (match em_err (compressFile (Scenarios.ex_archiver c) (cancelled (Scenarios.ex_s3 c))
                     (Scenarios.file_info Scenarios.hello) (j_hdr (Scenarios.ex_job c))
                     Scenarios.hello true) with
     | None => wrap64 (a_entries (Scenarios.ex_s3 c) + 1) | Some _ => a_entries (Scenarios.ex_s3 c) end).
  change (result (Scenarios.ex_s5 c)) with
    (match (match a_werr (Scenarios.ex_s3 c) with
            | Some e => Some e
            | None => em_err (compressFile (Scenarios.ex_archiver c) (cancelled (Scenarios.ex_s3 c))
                                (Scenarios.file_info Scenarios.hello) (j_hdr (Scenarios.ex_job c))
                                Scenarios.hello true) end) with
     | Some e => Some e | None => None end).
  rewrite E1, E2, E3, E4, B, R.
  split; [|split; reflexivity].
  apply wrap64_small.
  pose proof (FilePoolProps.zlen_nonneg (c Scenarios.hello)). lia.
Qed.

(** Witness of C9: the stored-block Deflate, 10 bytes for "hello". *)
Lemma example_written_witness :
  let st := Scenarios.final_state (Scenarios.ex_archiver StoredDeflate.compress) Scenarios.ex_files
              Scenarios.overtake_schedule in
  runs (Scenarios.ex_archiver StoredDeflate.compress) Scenarios.ex_files 0 0 st /\ terminal st /\
  a_written st = Z.min 5 (FilePool.zlen (StoredDeflate.compress Scenarios.hello)) /\
  a_entries st = 2 /\ result st = None.
Proof.
  intros st.
  assert (Hr : runs (Scenarios.ex_archiver StoredDeflate.compress) Scenarios.ex_files 0 0 st)
    by (apply final_state_runs; vm_compute; discriminate).
  assert (Ht : terminal st) by (split; [exists None|]; vm_compute; reflexivity).
  exact (conj Hr (conj Ht (example_written StoredDeflate.compress st Hr Ht))).
Defined.

(** Counterexample to C9: a run of the example that ends with no error
    and [Written()] = (5, 2), not (0, 2). *)
Lemma example_written_not_zero :
  let st := Scenarios.final_state (Scenarios.ex_archiver StoredDeflate.compress) Scenarios.ex_files
              Scenarios.overtake_schedule in
  runs (Scenarios.ex_archiver StoredDeflate.compress) Scenarios.ex_files 0 0 st /\ terminal st /\
  result st = None /\ a_written st = 5 /\ a_entries st = 2.
Proof.
  intros st. split; [apply final_state_runs; vm_compute; discriminate|].
  split; [split; [exists None|]; vm_compute; reflexivity|].
  repeat split; vm_compute; reflexivity.
Qed.
End ArchiverProps.

(** ** The extractor *)
Module ExtractorProps.
Import FS Extractor.

Lemma x_final_runs e fs cs :
  run e cs (init e fs) <> None -> runs e fs (XScenarios.x_final e fs cs).
Proof.
  unfold XScenarios.x_final.
  destruct (run e cs (init e fs)) as [st|] eqn:Hr;
    [intros _ | intros H; exfalso; exact (H eq_refl)].
  exact (XRunSound.xrun_rtc _ _ _ _ Hr).
Qed.

(** Claim C1 (a run of the code against it): the symlink "inner" ->
    "../" is created in phase 2, and the next symlink entry "inner/vuln"
    is created through it, as "/vuln", outside the chroot "/r"; [Extract]
    returns no error. *)
Theorem symlink_escape_extracted :
  let e := XScenarios.escape_extractor in
  let st := XScenarios.x_final e XScenarios.root_fs XScenarios.escape_schedule in
  runs e XScenarios.root_fs st /\ terminal st /\ result st = None /\
  Paths.extract_inside (ex_chroot e) "/vuln" = false /\
  XScenarios.root_fs !! ["vuln"%string] = None /\
  option_map nd_kind (x_fs st !! ["vuln"%string]) = Some (KLink "x").
Proof.
  intros e st.
  split; [apply x_final_runs; vm_compute; discriminate|].
  split; [split; [exists None|]; vm_compute; reflexivity|].
  repeat split; vm_compute; reflexivity.
Qed.

(** *** Phase 3 *)
Import ExtractorInv.

Lemma walk_shape n fs fs' cur cs f :
  same_shape fs fs' -> walk n fs cur cs f = walk n fs' cur cs f.
Proof.
  intros H. revert cur cs. induction n as [|n IH]; intros cur cs; [reflexivity|].
  simpl. destruct cs as [|c rest]; [reflexivity|].
  destruct (String.eqb c "" || String.eqb c "."); [apply IH|].
  destruct (String.eqb c ".."); [apply IH|].
  specialize (H (cur ++ [c])).
  destruct (fs !! (cur ++ [c])) as [nd|], (fs' !! (cur ++ [c])) as [nd'|];
    simpl in H; try discriminate H; [|reflexivity].
  injection H as Hk. rewrite Hk.
  destruct (nd_kind nd'); try reflexivity; try apply IH.
  destruct (_ && _); [reflexivity|apply IH].
Qed.

Lemma locate_shape fs fs' p : same_shape fs fs' -> locate fs p = locate fs' p.
Proof. intros H. unfold locate. rewrite (walk_shape _ _ _ _ _ _ H). reflexivity. Qed.

Lemma shape_refl fs : same_shape fs fs.
Proof. intros l. reflexivity. Qed.

Lemma shape_trans fs1 fs2 fs3 : same_shape fs1 fs2 -> same_shape fs2 fs3 -> same_shape fs1 fs3.
Proof. intros H1 H2 l. rewrite H1. apply H2. Qed.

Lemma shape_insert fs l n n' :
  fs !! l = Some n -> nd_kind n' = nd_kind n -> same_shape fs (<[l := n']> fs).
Proof.
  intros Hl Hk l'. destruct (decide (l = l')) as [<-|Hne].
  - rewrite lookup_insert_eq, Hl. simpl. congruence.
  - rewrite lookup_insert_ne by exact Hne. reflexivity.
Qed.

Lemma mtime_insert_ne fs l l' n : l <> l' -> mtime_at (<[l := n]> fs) l' = mtime_at fs l'.
Proof. intros Hne. unfold mtime_at. rewrite lookup_insert_ne by exact Hne. reflexivity. Qed.

Lemma lutimes_shape p m fs fs' r : lutimes p m fs = (fs', r) -> same_shape fs fs'.
Proof.
  unfold lutimes. destruct (locate fs p) as [err|loc]; [intros [= <- _]; apply shape_refl|].
  destruct (fs !! loc) as [n|] eqn:Hn; intros [= <- _]; [|apply shape_refl].
  apply (shape_insert _ _ n _ Hn). reflexivity.
Qed.

Lemma lchmod_shape p m fs fs' r : lchmod p m fs = (fs', r) -> same_shape fs fs'.
Proof.
  unfold lchmod. destruct (Mode.is_symlink m); [intros [= <- _]; apply shape_refl|].
  destruct (resolve fs p) as [err|loc]; [intros [= <- _]; apply shape_refl|].
  destruct (fs !! loc) as [n|] eqn:Hn; intros [= <- _]; [|apply shape_refl].
  apply (shape_insert _ _ n _ Hn). reflexivity.
Qed.

Lemma lutimes_frame p m fs fs' r l :
  lutimes p m fs = (fs', r) -> locate fs p <> inr l -> mtime_at fs' l = mtime_at fs l.
Proof.
  unfold lutimes. destruct (locate fs p) as [err|loc]; [intros [= <- _] _; reflexivity|].
  intros H Hne. destruct (fs !! loc) as [n|]; injection H as <- _; [|reflexivity].
  apply mtime_insert_ne. congruence.
Qed.

Lemma lchmod_frame p m fs fs' r l : lchmod p m fs = (fs', r) -> mtime_at fs' l = mtime_at fs l.
Proof.
  unfold lchmod. destruct (Mode.is_symlink m); [intros [= <- _]; reflexivity|].
  destruct (resolve fs p) as [err|loc]; [intros [= <- _]; reflexivity|].
  destruct (fs !! loc) as [n|] eqn:Hn; intros [= <- _]; [|reflexivity].
  unfold mtime_at. destruct (decide (loc = l)) as [<-|Hne].
  - rewrite lookup_insert_eq, Hn. reflexivity.
  - rewrite lookup_insert_ne by exact Hne. reflexivity.
Qed.

Lemma update_shape p zf fs fs' r : updateFileMetadata p zf fs = (fs', r) -> same_shape fs fs'.
Proof.
  unfold updateFileMetadata, bind.
  destruct (lutimes p (zf_modified zf) fs) as [fs1 [err|[]]] eqn:H1.
  - intros [= <- _]. exact (lutimes_shape _ _ _ _ _ H1).
  - intros H2. exact (shape_trans _ _ _ (lutimes_shape _ _ _ _ _ H1) (lchmod_shape _ _ _ _ _ H2)).
Qed.

Lemma update_frame p zf fs fs' r l :
  updateFileMetadata p zf fs = (fs', r) -> locate fs p <> inr l -> mtime_at fs' l = mtime_at fs l.
Proof.
  unfold updateFileMetadata, bind. intros H Hne.
  destruct (lutimes p (zf_modified zf) fs) as [fs1 [err|[]]] eqn:H1.
  - injection H as <- _. exact (lutimes_frame _ _ _ _ _ _ H1 Hne).
  - rewrite (lchmod_frame _ _ _ _ _ l H). exact (lutimes_frame _ _ _ _ _ _ H1 Hne).
Qed.

(** A successful [updateFileMetadata] leaves the entry's time on the
    object the path locates. *)
Lemma update_sets p zf fs fs' :
  updateFileMetadata p zf fs = (fs', inr tt) ->
  exists loc, locate fs p = inr loc /\ mtime_at fs' loc = Some (zf_modified zf).
Proof.
  unfold updateFileMetadata, bind.
  destruct (lutimes p (zf_modified zf) fs) as [fs1 [err|[]]] eqn:H1; [discriminate|].
  intros H2. revert H1. unfold lutimes.
  destruct (locate fs p) as [err|loc]; [discriminate|].
  destruct (fs !! loc) as [n|]; [|discriminate]. intros [= <-].
  exists loc. split; [reflexivity|].
  rewrite (lchmod_frame _ _ _ _ _ loc H2). unfold mtime_at. rewrite lookup_insert_eq. reflexivity.
Qed.

Lemma phase3_shape e files fs fs' r : phase3 e files fs = (fs', r) -> same_shape fs fs'.
Proof.
  revert fs. induction files as [|zf rest IH]; intros fs; cbn [phase3 app].
  - intros [= <- _]. apply shape_refl.
  - destruct (Mode.is_dir (zf_mode zf)); [|apply IH]. unfold bind.
    destruct (updateFileMetadata (entry_path e zf) zf fs) as [fs1 [err|[]]] eqn:Hu.
    + intros [= <- _]. exact (update_shape _ _ _ _ _ Hu).
    + intros H. exact (shape_trans _ _ _ (update_shape _ _ _ _ _ Hu) (IH _ H)).
Qed.

Lemma phase3_frame e files fs fs' r l :
  phase3 e files fs = (fs', r) ->
  (forall zf, In zf files -> Mode.is_dir (zf_mode zf) = true -> locate fs (entry_path e zf) <> inr l) ->
  mtime_at fs' l = mtime_at fs l.
Proof.
  revert fs. induction files as [|zf rest IH]; intros fs; cbn [phase3 app].
  - intros [= <- _] _. reflexivity.
  - destruct (Mode.is_dir (zf_mode zf)) eqn:Hd.
    2:{ intros H Hl. apply (IH _ H). intros zf' Hin. apply Hl. right. exact Hin. }
    unfold bind.
    destruct (updateFileMetadata (entry_path e zf) zf fs) as [fs1 [err|[]]] eqn:Hu;
      intros H Hl.
    + injection H as <- _. exact (update_frame _ _ _ _ _ _ Hu (Hl zf (or_introl eq_refl) Hd)).
    + rewrite <- (update_frame _ _ _ _ _ _ Hu (Hl zf (or_introl eq_refl) Hd)).
      apply (IH _ H). intros zf' Hin Hd'.
      rewrite <- (locate_shape _ _ _ (update_shape _ _ _ _ _ Hu)).
      exact (Hl zf' (or_intror Hin) Hd').
Qed.

Lemma phase3_app e l1 l2 fs fs' :
  phase3 e (l1 ++ l2) fs = (fs', inr tt) ->
  exists fs1, phase3 e l1 fs = (fs1, inr tt) /\ phase3 e l2 fs1 = (fs', inr tt).
Proof.
  revert fs. induction l1 as [|zf l1 IH]; intros fs; cbn [phase3 app].
  - intros H. exists fs. split; [reflexivity|exact H].
  - destruct (Mode.is_dir (zf_mode zf)); [|apply IH]. unfold bind.
    destruct (updateFileMetadata (entry_path e zf) zf fs) as [fs0 [err|[]]]; [discriminate|].
    apply IH.
Qed.

Lemma phase3_cons_dir e zf rest fs fs' :
  phase3 e (zf :: rest) fs = (fs', inr tt) -> Mode.is_dir (zf_mode zf) = true ->
  exists fs1, updateFileMetadata (entry_path e zf) zf fs = (fs1, inr tt) /\
              phase3 e rest fs1 = (fs', inr tt).
Proof.
  cbn [phase3]. intros H Hd. revert H. rewrite Hd. unfold bind.
  destruct (updateFileMetadata (entry_path e zf) zf fs) as [fs1 [err|[]]]; [discriminate|].
  intros H. exists fs1. split; [reflexivity|exact H].
Qed.

(** Phase 3 leaves on the object of a directory entry the time of that
    entry when no later directory entry locates the same object. *)
Lemma phase3_last_dir e pre zf post fs fs' :
  phase3 e (pre ++ zf :: post) fs = (fs', inr tt) -> Mode.is_dir (zf_mode zf) = true ->
  Forall (fun zf' => Mode.is_dir (zf_mode zf') = true ->
                     locate fs' (entry_path e zf') <> locate fs' (entry_path e zf)) post ->
  exists n, lstat fs' (entry_path e zf) = Some n /\ nd_mtime n = zf_modified zf.
Proof.
  intros H Hd Hpost. destruct (phase3_app _ _ _ _ _ H) as (fs1 & _ & H2).
  destruct (phase3_cons_dir _ _ _ _ _ H2 Hd) as (fs2 & Hu & H3). clear H2. rename H3 into H2.
  pose proof (phase3_shape _ _ _ _ _ H2) as S2.
  pose proof (update_shape _ _ _ _ _ Hu) as S1.
  destruct (update_sets _ _ _ _ Hu) as (loc & Hloc & Hm).
  assert (Hloc' : locate fs' (entry_path e zf) = inr loc).
  { rewrite <- (locate_shape _ _ _ S2), <- (locate_shape _ _ _ S1). exact Hloc. }
  assert (Hfr : mtime_at fs' loc = mtime_at fs2 loc).
  { apply (phase3_frame _ _ _ _ _ _ H2). intros zf' Hin Hd'.
    rewrite Forall_forall in Hpost.
    pose proof (Hpost zf' (proj2 (list_elem_of_In _ _) Hin) Hd') as Hne.
    rewrite (locate_shape _ _ _ S2), <- Hloc'. exact Hne. }
  rewrite Hm in Hfr. unfold lstat. rewrite Hloc'. unfold mtime_at in Hfr.
  destruct (fs' !! loc) as [n|]; [|discriminate]. injection Hfr as Hn.
  exists n. split; [reflexivity|exact Hn].
Qed.

(** *** Runs of [Extract] *)
Lemma dispatch_not_done_none e st zf rest : x_disp (dispatch_one e st zf rest) <> XDone None.
Proof.
  unfold dispatch_one.
  destruct (Mode.is_irregular (zf_mode zf)); [discriminate|].
  destruct (negb _); [discriminate|].
  destruct (mkdir_all _ _ _) as [fs1 [err|[]]]; [discriminate|].
  destruct (x_cancelled st); [discriminate|].
  destruct (Mode.is_symlink (zf_mode zf)); [discriminate|].
  destruct (Mode.is_dir (zf_mode zf)); [|discriminate].
  destruct (createDirectory _ _ _) as [fs2 [err|[]]]; discriminate.
Qed.

Lemma work_disp e st p zf others : x_disp (work e st p zf others) = x_disp st.
Proof.
  unfold work. destruct (createFile _ _ _ _ _) as [fs1 [err|n]]; [reflexivity|].
  destruct (updateFileMetadata p zf fs1) as [fs2 r2]. reflexivity.
Qed.

Lemma xinv_step e st st' : step e st st' -> xinv e st -> xinv e st'.
Proof.
  intros Hs Hi. destruct Hs as [st zf rest Hd|st p zf rest Hd Hl|st w1 p zf w2 Hw|st Hd Hw].
  - intros H. exfalso. exact (dispatch_not_done_none _ _ _ _ H).
  - intros H. discriminate H.
  - intros H. rewrite work_disp in H. destruct (Hi H) as [Hw' _].
    rewrite Hw' in Hw. exfalso. exact (app_cons_not_nil _ _ _ Hw).
  - unfold xinv, finish. destruct (x_werr st); [intros H; discriminate H|].
    destruct (phase2 e (ex_files e) (x_fs st) (x_entries st)) as [[fs2 n2] [err|]];
      [intros H; discriminate H|].
    destruct (phase3 e (ex_files e) fs2) as [fs3 [err|[]]] eqn:H3; [intros H; discriminate H|].
    intros _. split; [exact Hw|]. exists fs2. exact H3.
Qed.

Lemma xinv_runs e fs st : runs e fs st -> xinv e st.
Proof.
  intros Hr. assert (H0 : xinv e (init e fs)) by (intros H; discriminate H).
  induction Hr as [|x y z Hxy _ IH]; [exact H0|].
  apply IH. exact (xinv_step _ _ _ Hxy H0).
Qed.

(** Claim C5 (amended): after a run of [Extract] that returns nil, the
    object a directory entry's path locates has that entry's stored
    mtime whenever no later directory entry locates the same object (a
    later one's time wins); symlinks made in phase 2 do not disturb it. *)
Theorem dir_mtime_last_entry e fs st pre zf post :
  runs e fs st -> terminal st -> result st = None ->
  ex_files e = pre ++ zf :: post -> Mode.is_dir (zf_mode zf) = true ->
  Forall (fun zf' => Mode.is_dir (zf_mode zf') = true ->
                     locate (x_fs st) (entry_path e zf') <> locate (x_fs st) (entry_path e zf)) post ->
  exists n, lstat (x_fs st) (entry_path e zf) = Some n /\ nd_mtime n = zf_modified zf.
Proof.
  intros Hr [[r Hd] _] Hres Hf Hdir Hpost.
  unfold result in Hres. destruct (x_werr st); [discriminate|]. rewrite Hd in Hres. subst r.
  destruct (xinv_runs _ _ _ Hr Hd) as [_ [fs2 H3]]. rewrite Hf in H3.
  exact (phase3_last_dir _ _ _ _ _ _ H3 Hdir Hpost).
Qed.

(** Witness of C5: "d/" gets back its mtime 100 after the symlink "d/l"
    made in phase 2 touched it. *)
Lemma dir_mtime_last_entry_witness :
  let e := XScenarios.tree_extractor in
  let st := XScenarios.x_final e XScenarios.root_fs XScenarios.tree_schedule in
  let zf := hd (mkZF "" 0 0 []) (ex_files e) in
  let post := tl (ex_files e) in
  runs e XScenarios.root_fs st /\ terminal st /\ result st = None /\
  ex_files e = [] ++ zf :: post /\ Mode.is_dir (zf_mode zf) = true /\
  Forall (fun zf' => Mode.is_dir (zf_mode zf') = true ->
                     locate (x_fs st) (entry_path e zf') <> locate (x_fs st) (entry_path e zf)) post /\
  exists n, lstat (x_fs st) (entry_path e zf) = Some n /\ nd_mtime n = zf_modified zf.
Proof.
  intros e st zf post.
  assert (H1 : runs e XScenarios.root_fs st) by (apply x_final_runs; vm_compute; discriminate).
  assert (H2 : terminal st) by (split; [exists None|]; vm_compute; reflexivity).
  assert (H3 : result st = None) by (vm_compute; reflexivity).
  assert (H4 : ex_files e = [] ++ zf :: post) by reflexivity.
  assert (H5 : Mode.is_dir (zf_mode zf) = true) by (vm_compute; reflexivity).
  assert (H6 : Forall (fun zf' => Mode.is_dir (zf_mode zf') = true ->
                 locate (x_fs st) (entry_path e zf') <> locate (x_fs st) (entry_path e zf)) post).
  { repeat constructor; intros H; vm_compute in H; discriminate H. }
  do 6 (split; [assumption|]).
  exact (dir_mtime_last_entry e XScenarios.root_fs st [] zf post H1 H2 H3 H4 H5 H6).
Defined.

(** Counterexample to C5: two entries for the directory "d/", with mtimes
    100 and 200: [Extract] succeeds and "d" has the mtime 200, not the
    first entry's 100. *)
Lemma dir_mtime_overwritten_by_later_entry :
  let e := XScenarios.dup_dir_extractor in
  let st := XScenarios.x_final e XScenarios.root_fs XScenarios.escape_schedule in
  let zf := hd (mkZF "" 0 0 []) (ex_files e) in
  runs e XScenarios.root_fs st /\ terminal st /\ result st = None /\
  Mode.is_dir (zf_mode zf) = true /\ zf_modified zf = 100 /\
  option_map nd_mtime (lstat (x_fs st) (entry_path e zf)) = Some 200.
Proof.
  intros e st zf.
  split; [apply x_final_runs; vm_compute; discriminate|].
  split; [split; [exists None|]; vm_compute; reflexivity|].
  repeat split; vm_compute; reflexivity.
Qed.
End ExtractorProps.
